(** * pd-data-analyst: the extraction pipeline of [app.py]

    A shallow embedding of the URL canonicalizer, the media classifier,
    the static and dynamic result assembly, the response listener and the
    fusion step of [app.py], with the properties of the specification
    stated over it.

    Python strings are sequences of Unicode code points, so [str] is
    [list N]; literals are written as Rocq strings and decoded from UTF-8
    by [lit]. *)

From Stdlib Require Import NArith ZArith Ascii String List Bool Lia.
From stdpp Require Import base option list gmap strings.

Set Default Proof Using "Type".

(** ** Python strings *)

Module Py.

Abbreviation str := (list N).

Definition REPLACEMENT : N := 65533%N.

Definition is_cont (b : N) : bool := ((128 <=? b) && (b <? 192))%N.

(** The second byte of a multi-byte sequence: a continuation byte that
    does not begin an overlong form, a surrogate or a value beyond
    U+10FFFF. *)
Definition second_ok (b1 b2 : N) : bool :=
  (is_cont b2
   && negb ((b1 =? 224) && (b2 <? 160)) && negb ((b1 =? 237) && (160 <=? b2))
   && negb ((b1 =? 240) && (b2 <? 144)) && negb ((b1 =? 244) && (144 <=? b2)))%N.

(** [bytes.decode("utf-8", "replace")]: every maximal ill-formed prefix
    becomes one U+FFFD, a sequence cut off by the end of the input
    becomes one U+FFFD as a whole. *)
Fixpoint utf8_decode (bs : list N) : str :=
  match bs with
  | [] => []
  | b1 :: r1 =>
    if (b1 <? 128)%N then b1 :: utf8_decode r1
    else if ((b1 <? 194) || (245 <=? b1))%N then REPLACEMENT :: utf8_decode r1
    else if (b1 <? 224)%N then
      match r1 with
      | [] => [REPLACEMENT]
      | b2 :: r2 =>
        if is_cont b2 then ((b1 - 192) * 64 + (b2 - 128))%N :: utf8_decode r2
        else REPLACEMENT :: utf8_decode r1
      end
    else if (b1 <? 240)%N then
      match r1 with
      | [] => [REPLACEMENT]
      | b2 :: r2 =>
        if negb (second_ok b1 b2) then REPLACEMENT :: utf8_decode r1
        else match r2 with
             | [] => [REPLACEMENT]
             | b3 :: r3 =>
               if is_cont b3
               then (((b1 - 224) * 64 + (b2 - 128)) * 64 + (b3 - 128))%N :: utf8_decode r3
               else REPLACEMENT :: utf8_decode r2
             end
      end
    else
      match r1 with
      | [] => [REPLACEMENT]
      | b2 :: r2 =>
        if negb (second_ok b1 b2) then REPLACEMENT :: utf8_decode r1
        else match r2 with
             | [] => [REPLACEMENT]
             | b3 :: r3 =>
               if negb (is_cont b3) then REPLACEMENT :: utf8_decode r2
               else match r3 with
                    | [] => [REPLACEMENT]
                    | b4 :: r4 =>
                      if is_cont b4
                      then ((((b1 - 240) * 64 + (b2 - 128)) * 64 + (b3 - 128)) * 64
                            + (b4 - 128))%N :: utf8_decode r4
                      else REPLACEMENT :: utf8_decode r3
                    end
             end
      end
  end.

(** A literal of the source, written as a Rocq string (UTF-8). *)
Definition lit (s : string) : str :=
  utf8_decode (map N_of_ascii (list_ascii_of_string s)).

(** [str.isspace] of one character, which is also the class [\s] of [re]
    on [str] patterns. *)
Definition isspace (c : N) : bool :=
  (((9 <=? c) && (c <=? 13)) || ((28 <=? c) && (c <=? 32))
   || (c =? 133) || (c =? 160) || (c =? 5760)
   || ((8192 <=? c) && (c <=? 8202))
   || (c =? 8232) || (c =? 8233) || (c =? 8239) || (c =? 8287) || (c =? 12288))%N.

(** First code points of the runs of ten decimal digits of Unicode 14
    (general category Nd), the class [\d] of [re] on [str] patterns;
    the mathematical digits U+1D7CE..U+1D7FF form five runs. *)
Definition digit_runs : list N :=
  [48; 1632; 1776; 1984; 2406; 2534; 2662; 2790; 2918; 3046; 3174; 3302;
   3430; 3558; 3664; 3792; 3872; 4160; 4240; 6112; 6160; 6470; 6608; 6784;
   6800; 6992; 7088; 7232; 7248; 42528; 43216; 43264; 43472; 43504; 43600;
   44016; 65296; 66720; 68912; 69734; 69872; 69942; 70096; 70384; 70736;
   70864; 71248; 71360; 71472; 71904; 72016; 72784; 73040; 73120; 92768;
   92864; 93008; 120782; 120792; 120802; 120812; 120822; 123200; 123632;
   125264; 130032]%N.

Definition isdecimal (c : N) : bool :=
  existsb (fun lo => (lo <=? c) && (c <? lo + 10))%N digit_runs.

Definition str_eqb (a b : str) : bool := bool_decide (a = b).

Fixpoint lstrip_by (p : N -> bool) (s : str) : str :=
  match s with
  | [] => []
  | c :: s' => if p c then lstrip_by p s' else s
  end.

Definition rstrip_by (p : N -> bool) (s : str) : str :=
  rev (lstrip_by p (rev s)).

Definition strip_by (p : N -> bool) (s : str) : str :=
  rstrip_by p (lstrip_by p s).

(** [s.strip()] *)
Definition strip (s : str) : str := strip_by isspace s.

Definition mem (c : N) (chars : str) : bool := existsb (N.eqb c) chars.

(** [s.strip(chars)] *)
Definition strip_chars (chars : str) (s : str) : str :=
  strip_by (fun c => mem c chars) s.

(** [s.startswith(p)] *)
Fixpoint startswith (p s : str) : bool :=
  match p, s with
  | [], _ => true
  | _ :: _, [] => false
  | a :: p', b :: s' => (a =? b)%N && startswith p' s'
  end.

(** [sub in s] *)
Fixpoint contains (sub s : str) : bool :=
  startswith sub s
  || match s with
     | [] => false
     | _ :: s' => contains sub s'
     end.

(** [s.split(c, 1)]: the text before the first [c] and, when there is
    one, the text after it. *)
Fixpoint partition (c : N) (s : str) : str * option str :=
  match s with
  | [] => ([], None)
  | d :: s' =>
    if (d =? c)%N then ([], Some s')
    else let '(a, b) := partition c s' in (d :: a, b)
  end.

(** [s.split(c)] *)
Fixpoint split (c : N) (s : str) : list str :=
  match s with
  | [] => [[]]
  | d :: s' =>
    if (d =? c)%N then [] :: split c s'
    else match split c s' with
         | [] => [[d]]
         | w :: ws => (d :: w) :: ws
         end
  end.

(** [s.replace(old, new)] for a non-empty [old]; [skip] counts the
    characters of a replaced occurrence still to pass over. *)
Fixpoint replace_from (old new : str) (skip : nat) (s : str) : str :=
  match s with
  | [] => []
  | c :: s' =>
    match skip with
    | S k => replace_from old new k s'
    | O =>
      if startswith old s then new ++ replace_from old new (length old - 1) s'
      else c :: replace_from old new 0 s'
    end
  end.

Definition replace (old new s : str) : str := replace_from old new 0 s.

(** [sep.join(parts)] *)
Fixpoint join (sep : str) (parts : list str) : str :=
  match parts with
  | [] => []
  | [p] => p
  | p :: ps => p ++ sep ++ join sep ps
  end.

(** The longest prefix whose characters satisfy [p], and the rest. *)
Fixpoint span (p : N -> bool) (s : str) : str * str :=
  match s with
  | [] => ([], [])
  | c :: s' =>
    if p c then let '(a, b) := span p s' in (c :: a, b) else ([], s)
  end.

(** [str(n)] of a non-negative int. *)
Definition digit_char (n : nat) : N := (48 + N.of_nat n)%N.

Fixpoint str_of_nat_fuel (fuel n : nat) (acc : str) : str :=
  match fuel with
  | O => acc
  | S f =>
    let acc' := digit_char (n mod 10) :: acc in
    if (n / 10 =? 0)%nat then acc' else str_of_nat_fuel f (n / 10) acc'
  end.

Definition str_of_nat (n : nat) : str := str_of_nat_fuel (S n) n [].

(** *** The fragment of [re] the program uses *)

(** [re.search]: the match at the leftmost position that has one. *)
Fixpoint search {A} (m : str -> option A) (s : str) : option A :=
  match m s with
  | Some a => Some a
  | None => match s with
            | [] => None
            | _ :: s' => search m s'
            end
  end.

(** [re.findall] for a pattern without groups whose matches are never
    empty: [m] gives the length of the match at the start of its
    argument. *)
Fixpoint findall_from (m : str -> option nat) (skip : nat) (s : str) : list str :=
  match s with
  | [] => []
  | _ :: s' =>
    match skip with
    | S k => findall_from m k s'
    | O => match m s with
           | Some n => take n s :: findall_from m (n - 1) s'
           | None => findall_from m 0 s'
           end
    end
  end.

Definition findall (m : str -> option nat) (s : str) : list str :=
  findall_from m 0 s.

(** One literal character of a pattern compiled with [re.I]: [p] is a
    lower-case letter or a caseless character. Besides the two ASCII
    cases, [i] matches U+0130 and U+0131, [s] matches U+017F and [k]
    matches U+212A. *)
Definition ci_char (p c : N) : bool :=
  ((c =? p)
   || ((97 <=? p) && (p <=? 122) && (c =? p - 32))
   || ((p =? 105) && ((c =? 304) || (c =? 305)))
   || ((p =? 115) && (c =? 383))
   || ((p =? 107) && (c =? 8490)))%N.

(** A literal at the start of [s]: the rest of [s] after it. *)
Fixpoint after_lit (ci : bool) (p s : str) : option str :=
  match p, s with
  | [], _ => Some s
  | _ :: _, [] => None
  | a :: p', b :: s' =>
    if (if ci then ci_char a b else (a =? b)%N) then after_lit ci p' s' else None
  end.

(** [(?:$|\?)] *)
Definition at_end_or_query (s : str) : bool :=
  match s with
  | [] => true
  | [10%N] => true
  | c :: _ => (c =? 63)%N
  end.

(** [\.(?:e1|e2|...)(?:$|\?)] with [re.I], at the start of [s]. *)
Definition ext_at (exts : list str) (s : str) : option unit :=
  match s with
  | 46%N :: r =>
    if existsb (fun e => match after_lit true e r with
                         | Some t => at_end_or_query t
                         | None => false
                         end) exts
    then Some tt else None
  | _ => None
  end.

Definition ext_search (exts : list str) (s : str) : bool :=
  match search (ext_at exts) s with Some _ => true | None => false end.

(** [\d{5,}] at the start of [s]: the whole run of digits. *)
Definition digits5_at (s : str) : option str :=
  let run := fst (span isdecimal s) in
  if (5 <=? length run)%nat then Some run else None.

(** [prefix(\d{5,})] at the start of [s]: the group. *)
Definition prefixed_digits5_at (prefix : str) (s : str) : option str :=
  match after_lit false prefix s with
  | Some r => digits5_at r
  | None => None
  end.

(** [https?://C+] at the start of [s], where [C] is the complement of
    [stop]: the length of the match. *)
Definition http_token_at (ci : bool) (stop : N -> bool) (s : str) : option nat :=
  match after_lit ci (lit "http") s with
  | None => None
  | Some r =>
    let tail (n : nat) (t : str) : option nat :=
      match after_lit ci (lit "://") t with
      | None => None
      | Some b =>
        let body := fst (span (fun c => negb (stop c)) b) in
        if (1 <=? length body)%nat then Some (n + 3 + length body)%nat else None
      end in
    let with_s :=
      match r with
      | c :: r' => if (if ci then ci_char 115 c else (c =? 115)%N) then tail 5%nat r' else None
      | [] => None
      end in
    match with_s with
    | Some n => Some n
    | None => tail 4%nat r
    end
  end.

End Py.

(** ** [urllib.parse]

    [urlparse] and [parse_qs] as CPython 3.11 computes them ([urlsplit],
    [_splitnetloc], [_splitparams], [parse_qsl], [unquote],
    [unquote_to_bytes]). [urlsplit] raises [ValueError] for a host with
    unbalanced or ill-formed brackets and for a host that NFKC
    normalisation changes into one with a delimiter: the functions here
    give the value of a call that returns, and [Exn.urlsplit_error]
    below says which calls raise, and with what message. *)

Module Url.
Import Py.

Record ParseResult := {
  scheme : str;
  netloc : str;
  path : str;
  params : str;
  query : str;
  fragment : str
}.

Definition ascii_alpha (c : N) : bool :=
  (((65 <=? c) && (c <=? 90)) || ((97 <=? c) && (c <=? 122)))%N.

Definition ascii_digit (c : N) : bool := ((48 <=? c) && (c <=? 57))%N.

(** [scheme_chars] *)
Definition scheme_char (c : N) : bool :=
  ascii_alpha c || ascii_digit c || mem c (lit "+-.").

Definition ascii_lower_char (c : N) : N :=
  if ((65 <=? c) && (c <=? 90))%N then (c + 32)%N else c.

(** [_WHATWG_C0_CONTROL_OR_SPACE] *)
Definition c0_control_or_space (c : N) : bool := (c <=? 32)%N.

(** [_UNSAFE_URL_BYTES_TO_REMOVE] *)
Definition unsafe_url_bytes : list str := [[9%N]; [13%N]; [10%N]].

(** The scheme of [url] and what follows its colon. *)
Definition split_scheme (url : str) : str * str :=
  match partition 58 url with
  | (c0 :: pre, Some rest) =>
    if ascii_alpha c0 && forallb scheme_char (c0 :: pre)
    then (map ascii_lower_char (c0 :: pre), rest)
    else ([], url)
  | _ => ([], url)
  end.

(** [_splitnetloc(url, 2)] for a [url] that starts with two slashes. *)
Definition splitnetloc (url : str) : str * str :=
  span (fun c => negb (mem c (lit "/?#"))) (drop 2 url).

Definition urlsplit (url0 : str) : ParseResult :=
  let url := lstrip_by c0_control_or_space url0 in
  let url := fold_left (fun u b => replace b [] u) unsafe_url_bytes url in
  let '(sch, url) := split_scheme url in
  let '(net, url) :=
    if startswith (lit "//") url then splitnetloc url else ([], url) in
  let '(url, frag) :=
    match partition 35 url with
    | (a, Some b) => (a, b)
    | (_, None) => (url, [])
    end in
  let '(url, qry) :=
    match partition 63 url with
    | (a, Some b) => (a, b)
    | (_, None) => (url, [])
    end in
  {| scheme := sch; netloc := net; path := url; params := [];
     query := qry; fragment := frag |}.

Definition uses_params : list str :=
  map lit [""; "ftp"; "hdl"; "prospero"; "http"; "imap"; "https"; "shttp";
           "rtsp"; "rtspu"; "sip"; "sips"; "mms"; "sftp"; "tel"]%string.

(** [s[:k]] and [s[k:]] for the last index [k] of [c] in [s]. *)
Definition rsplit_at (c : N) (s : str) : option (str * str) :=
  match partition c (rev s) with
  | (b, Some a) => Some (rev a, c :: rev b)
  | (_, None) => None
  end.

(** [_splitparams] for a [url] that has a semicolon. *)
Definition splitparams (url : str) : str * str :=
  match rsplit_at 47 url with
  | Some (before, last) =>
    match partition 59 last with
    | (a, Some b) => (before ++ a, b)
    | (_, None) => (url, [])
    end
  | None =>
    match partition 59 url with
    | (a, Some b) => (a, b)
    | (_, None) => (url, [])
    end
  end.

Definition urlparse (url : str) : ParseResult :=
  let r := urlsplit url in
  if existsb (str_eqb (scheme r)) uses_params && mem 59 (path r)
  then let '(p, ps) := splitparams (path r) in
       {| scheme := scheme r; netloc := netloc r; path := p; params := ps;
          query := query r; fragment := fragment r |}
  else r.

(** [_hexdig] *)
Definition hexval (c : N) : option N :=
  if ascii_digit c then Some (c - 48)%N
  else if ((65 <=? c) && (c <=? 70))%N then Some (c - 55)%N
  else if ((97 <=? c) && (c <=? 102))%N then Some (c - 87)%N
  else None.

(** One piece after a percent sign. *)
Definition unquote_item (item : str) : list N :=
  match item with
  | a :: b :: r =>
    match hexval a, hexval b with
    | Some x, Some y => (16 * x + y)%N :: r
    | _, _ => 37%N :: item
    end
  | _ => 37%N :: item
  end.

(** [unquote_to_bytes] of an ASCII string. *)
Definition unquote_to_bytes (s : str) : list N :=
  match split 37 s with
  | [] => []
  | b0 :: bits => b0 ++ concat (map unquote_item bits)
  end.

(** The maximal runs of ASCII and of non-ASCII characters of [s]
    ([_asciire.split]). *)
Fixpoint ascii_runs (s : str) : list (bool * str) :=
  match s with
  | [] => []
  | c :: s' =>
    let a := (c <? 128)%N in
    match ascii_runs s' with
    | (a', r) :: rest =>
      if Bool.eqb a a' then (a, c :: r) :: rest else (a, [c]) :: (a', r) :: rest
    | [] => [(a, [c])]
    end
  end.

(** [unquote(string)] with UTF-8 and [errors="replace"]. *)
Definition unquote (s : str) : str :=
  if negb (mem 37 s) then s
  else concat (map (fun '(a, r) => if a : bool then utf8_decode (unquote_to_bytes r) else r)
                   (ascii_runs s)).

Definition plus_to_space (s : str) : str := replace [43%N] [32%N] s.

(** [parse_qsl(qs)] with the default arguments. *)
Definition parse_qsl (qs : str) : list (str * str) :=
  let query_args := match qs with [] => [] | _ => split 38 qs end in
  flat_map (fun name_value =>
    match name_value with
    | [] => []
    | _ =>
      match partition 61 name_value with
      | (n, Some (c :: v)) =>
        [(unquote (plus_to_space n), unquote (plus_to_space (c :: v)))]
      | _ => []
      end
    end) query_args.

(** [parse_qs(qs)[key][0]], when [key in parse_qs(qs)]. *)
Fixpoint qs_first (key : str) (pairs : list (str * str)) : option str :=
  match pairs with
  | [] => None
  | (n, v) :: rest => if str_eqb n key then Some v else qs_first key rest
  end.

End Url.

(** ** URL canonicalizer *)

Import Py Url.

(** [(https?://[^\s]+)] at the start of [s]: the group. *)
Definition url_group_at (s : str) : option str :=
  match http_token_at false isspace s with
  | Some k => Some (take k s)
  | None => None
  end.

Definition extract_url (text : str) : str :=
  match search url_group_at (strip text) with
  | Some m => strip_chars (lit "，。,.") m
  | None => strip text
  end.

Definition normalize_url (raw : str) : str :=
  let cleaned := extract_url raw in
  match cleaned with
  | [] => []
  | _ =>
    match scheme (urlparse cleaned) with
    | [] => lit "https://" ++ cleaned
    | _ => cleaned
    end
  end.

(** The first loop of [extract_goods_id], over the query parameters. *)
Fixpoint goods_id_from_query (keys : list str) (qry : list (str * str)) : option str :=
  match keys with
  | [] => None
  | key :: keys' =>
    match qs_first key qry with
    | Some v =>
      match search digits5_at v with
      | Some m => Some m
      | None => goods_id_from_query keys' qry
      end
    | None => goods_id_from_query keys' qry
    end
  end.

(** The second loop of [extract_goods_id], over the patterns. *)
Fixpoint goods_id_from_patterns (prefixes : list str) (url : str) : option str :=
  match prefixes with
  | [] => None
  | p :: prefixes' =>
    match search (prefixed_digits5_at p) url with
    | Some m => Some m
    | None => goods_id_from_patterns prefixes' url
    end
  end.

Definition extract_goods_id (url : str) : str :=
  let parsed := urlparse url in
  let qry := parse_qsl (query parsed) in
  match goods_id_from_query [lit "goods_id"; lit "goodsId"; lit "gid"] qry with
  | Some m => m
  | None =>
    match goods_id_from_patterns [lit "goods_id="; lit "/goods/"; lit "goods/"] url with
    | Some m => m
    | None => []
    end
  end.

Definition GOODS_URL_PREFIX : str := lit "https://mobile.yangkeduo.com/goods.html?goods_id=".

Definition canonicalize_pdd_goods_url (url : str) : str :=
  match extract_goods_id url with
  | [] => url
  | goods_id => GOODS_URL_PREFIX ++ goods_id
  end.

(** ** Data model *)

(** The values the program stores in [ProductInfo.raw]. *)
Inductive RawVal :=
  | RStr (s : str)
  | RInt (n : Z)
  | RBool (b : bool)
  | RList (l : list str).

Record ProductInfo := {
  source_url : str;
  final_url : str;
  title : str;
  images : list str;
  videos : list str;
  raw : gmap string RawVal
}.

(** The assignments [info.raw = r] and [info.videos = vs]. *)
Definition with_raw (info : ProductInfo) (r : gmap string RawVal) : ProductInfo :=
  {| source_url := source_url info; final_url := final_url info; title := title info;
     images := images info; videos := videos info; raw := r |}.

Definition with_videos (info : ProductInfo) (vs : list str) : ProductInfo :=
  {| source_url := source_url info; final_url := final_url info; title := title info;
     images := images info; videos := vs; raw := raw info |}.

(** [raw.get(k, [])] for the keys under which the program stores lists. *)
Definition raw_list (k : string) (r : gmap string RawVal) : list str :=
  match r !! k with
  | Some (RList l) => l
  | _ => []
  end.

(** [int(raw.get(k, 0))] for the keys under which the program stores
    counts. *)
Definition raw_int (k : string) (r : gmap string RawVal) : Z :=
  match r !! k with
  | Some (RInt n) => n
  | _ => 0%Z
  end.

(** A call that returns or raises; an exception is kept as the text
    [str(exc)] that the program formats into its logs. *)
Inductive outcome (A : Type) :=
  | Returned (a : A)
  | Raised (msg : str).
Arguments Returned {A} a.
Arguments Raised {A} msg.

(** What [json.loads] yields. *)
#[warnings="-register-all"] Inductive Json :=
  | JNull
  | JBool (b : bool)
  | JNumber (n : Z)
  | JStr (s : str)
  | JArr (items : list Json)
  | JObj (fields : list (str * Json)).

(** The tree that BeautifulSoup builds, as far as [extract_from_html]
    reads it: tags in document order with the attributes it asks for. *)
Record MetaTag := {
  meta_property : option str;
  meta_name : option str;
  meta_content : option str
}.

Record ImgTag := {
  img_src : option str;
  img_data_src : option str;
  img_data_original : option str
}.

Record VideoTag := {
  video_src : option str;
  video_sources : list (option str)
}.

Record Soup := {
  metas : list MetaTag;
  title_text : option str;
  imgs : list ImgTag;
  video_tags : list VideoTag;
  scripts : list str
}.

(** A markup text: [len(html)] and [BeautifulSoup(html, "lxml")]. *)
Record Html := {
  html_length : nat;
  soup : Soup
}.

Definition empty_html : Html :=
  {| html_length := 0;
     soup := {| metas := []; title_text := None; imgs := []; video_tags := [];
                scripts := [] |} |}.

(** One response as the listener sees it: [response.text()] returns or
    raises, and [res_json] is what [json.loads] makes of the body, [None]
    when it raises. *)
Record Response := {
  res_url : str;
  res_content_type : option str;
  res_resource_type : str;
  res_text : option str;
  res_json : option Json
}.

Inductive NetEvent :=
  | EvRequest (url : str)
  | EvResponse (r : Response).

(** What one run of the browser page gives to
    [parse_dynamic_with_playwright] when nothing in its [try] block
    raises: the network events in the order of their delivery, [page.url],
    [page.content()] and the result of [page.evaluate]. *)
Record BrowserRun := {
  run_events : list NetEvent;
  run_final_url : str;
  run_html : Html;
  run_imgs : list str;
  run_videos : list str;
  run_links : list str
}.

(** The world outside the program: [fetch_html url cookie_text], and the
    browser run for a URL (with the live page, when one is passed). *)
Record Env := {
  fetch_html : str -> str -> outcome (Html * str);
  browse : str -> outcome BrowserRun
}.

(** ** Media classifier *)

Definition IMAGE_EXTS : list str := map lit ["jpg"; "jpeg"; "png"; "webp"; "avif"; "gif"]%string.
Definition VIDEO_EXTS : list str := map lit ["mp4"; "m3u8"; "mov"; "webm"]%string.
Definition STATIC_ASSET_EXTS : list str :=
  map lit ["js"; "css"; "map"; "json"; "html"; "htm"; "txt"; "xml"]%string.
Definition VIDEO_HINTS : list str :=
  map lit ["video"; "play"; "stream"; "hls"; "goods_video"; "video_url"]%string.
Definition IMAGE_HINTS : list str := map lit ["image"; "img"; "cover"; "thumb"; "pic"]%string.
Definition BLOCKED_URL_KEYWORDS : list str :=
  map lit ["down_download"; "android_browser_download"; "ios_fast_download";
           "need_popover=true"; "itunes.apple.com"; "apps.apple.com"]%string.
Definition PLACEHOLDER_TITLE : str := lit "拼多多商城".

(** [any(k in s for k in keys)] *)
Definition any_in (keys : list str) (s : str) : bool :=
  existsb (fun k => contains k s) keys.

(** [item.split("?")[0]] *)
Definition path_key (item : str) : str := fst (partition 63 item).

Definition uniq_step (st : list str * gset str) (item : str) : list str * gset str :=
  let '(out, seen) := st in
  let normalized := path_key item in
  if bool_decide (normalized ∈ seen) then st
  else (out ++ [item], {[normalized]} ∪ seen).

Definition uniq_by_path (items : list str) : list str :=
  fst (fold_left uniq_step items ([], ∅)).

(** The exact deduplication at the end of [meta_values]. *)
Definition uniq_exact_step (st : list str * gset str) (v : str) : list str * gset str :=
  let '(uniq, seen) := st in
  if bool_decide (v ∈ seen) then st else (uniq ++ [v], {[v]} ∪ seen).

Definition uniq_exact (values : list str) : list str :=
  fst (fold_left uniq_exact_step values ([], ∅)).

Definition normalize_candidate_url (value : str) : str :=
  let v := strip value in
  if startswith (lit "//") v then lit "https:" ++ v else v.

(** [URL_PATTERN] *)
Definition url_pattern_stop (c : N) : bool :=
  isspace c || mem c [34; 39; 60; 62; 92]%N.

Definition extract_urls_from_text (text : str) : list str :=
  let normalized := replace (lit "\/") (lit "/") (replace (lit "\u002F") (lit "/") text) in
  findall (http_token_at true url_pattern_stop) normalized.

Section Pipeline.

(** [str.lower] follows the case tables of the Unicode database, which
    are not reproduced here: the pipeline is defined for any such
    function. *)
Variable lower : str -> str.

Definition is_blocked_jump_url (url : str) : bool :=
  any_in BLOCKED_URL_KEYWORDS (lower url).

(** One round of the loop of [classify_media_urls]. *)
Definition classify_step (st : list str * list str) (raw : str) : list str * list str :=
  let '(images, videos) := st in
  let url := normalize_candidate_url (strip raw) in
  if negb (startswith (lit "http") url) then st
  else
    let low := lower url in
    if ext_search STATIC_ASSET_EXTS low then st
    else
      let path := lower (Url.path (urlparse url)) in
      if ext_search IMAGE_EXTS low then (images ++ [url], videos)
      else if ext_search VIDEO_EXTS low then (images, videos ++ [url])
      else if any_in VIDEO_HINTS low
              && any_in (map lit ["/video"; "video-"; "/play"; "m3u8"; "mp4"]%string) path
      then (images, videos ++ [url])
      else if any_in IMAGE_HINTS low
              && any_in (map lit ["/image"; "/img"; "cover"; "thumb"; "pic"]%string) path
      then (images ++ [url], videos)
      else st.

Definition classify_media_urls (candidates : list str) : list str * list str :=
  let '(images, videos) := fold_left classify_step candidates ([], []) in
  (uniq_by_path images, uniq_by_path videos).

(** The inner function of [extract_media_from_json_obj]. *)
Definition classify_by_key (path value : str) (st : list str * list str)
  : list str * list str :=
  let '(images, videos) := st in
  let low_path := lower path in
  let url := normalize_candidate_url value in
  if negb (startswith (lit "http") url) then st
  else if any_in VIDEO_HINTS low_path then (images, videos ++ [url])
  else if any_in IMAGE_HINTS low_path then (images ++ [url], videos)
  else
    let '(classified_images, classified_videos) := classify_media_urls [url] in
    (images ++ classified_images, videos ++ classified_videos).

Fixpoint extract_media_from_json_obj (obj : Json) (key_path : str) : list str * list str :=
  let '(images, videos) :=
    match obj with
    | JObj fields =>
      (fix items (kvs : list (str * Json)) (st : list str * list str) :=
         match kvs with
         | [] => st
         | (k, v) :: rest =>
           let next_path :=
             match key_path with
             | [] => k
             | _ => key_path ++ lit "." ++ k
             end in
           let '(sub_images, sub_videos) := extract_media_from_json_obj v next_path in
           items rest (fst st ++ sub_images, snd st ++ sub_videos)
         end) fields ([], [])
    | JArr elems =>
      (fix enumerate (idx : nat) (l : list Json) (st : list str * list str) :=
         match l with
         | [] => st
         | item :: rest =>
           let next_path := key_path ++ lit "[" ++ str_of_nat idx ++ lit "]" in
           let '(sub_images, sub_videos) := extract_media_from_json_obj item next_path in
           enumerate (S idx) rest (fst st ++ sub_images, snd st ++ sub_videos)
         end) 0 elems ([], [])
    | JStr s =>
      fold_left (fun st url => classify_by_key key_path url st)
                (extract_urls_from_text s)
                (classify_by_key key_path s ([], []))
    | _ => ([], [])
    end in
  (uniq_by_path images, uniq_by_path videos).

(** The test of one round of the loop of [filter_valid_video_urls] on
    the normalised URL. *)
Definition valid_video_url (url : str) : bool :=
  if negb (startswith (lit "http") url) then false
  else
    let low := lower url in
    if ext_search STATIC_ASSET_EXTS low then false
    else if ext_search VIDEO_EXTS low then true
    else
      let path := lower (Url.path (urlparse url)) in
      any_in (map lit ["/video"; "video-"; "/play"]%string) path
      && any_in (map lit ["m3u8"; "mp4"; "video"]%string) low.

Definition filter_step (valid : list str) (raw : str) : list str :=
  let url := normalize_candidate_url (strip raw) in
  if valid_video_url url then valid ++ [url] else valid.

Definition filter_valid_video_urls (urls : list str) : list str :=
  uniq_by_path (fold_left filter_step urls []).

(** ** Static extraction *)

(** [(tag.get("content") or "").strip()] of the tags whose attribute
    [attr] is [key], empty contents left out. *)
Definition meta_contents (attr : MetaTag -> option str) (key : str) (tags : list MetaTag)
  : list str :=
  flat_map (fun tag =>
    if bool_decide (attr tag = Some key) then
      match strip (default [] (meta_content tag)) with
      | [] => []
      | content => [content]
      end
    else []) tags.

Definition meta_values (sp : Soup) (keys : list str) : list str :=
  uniq_exact
    (flat_map (fun key => meta_contents meta_property key (metas sp)
                          ++ meta_contents meta_name key (metas sp)) keys).

(** [a or b or ... or ""] over attribute values. *)
Fixpoint first_truthy (l : list (option str)) : str :=
  match l with
  | [] => []
  | Some (c :: v) :: _ => c :: v
  | _ :: l' => first_truthy l'
  end.

(** The candidate of one attribute value: kept when it starts with
    [http] after normalisation. *)
Definition http_candidate (v : str) : list str :=
  let src := normalize_candidate_url (strip v) in
  if startswith (lit "http") src then [src] else [].

Definition extract_from_html (html : Html) : str * list str * list str :=
  let sp := soup html in
  let title_candidates := meta_values sp [lit "og:title"; lit "twitter:title"] in
  let title :=
    match title_candidates with
    | t :: _ => t
    | [] =>
      match title_text sp with
      | Some (c :: t) => strip (c :: t)
      | _ => []
      end
    end in
  let image_candidates := meta_values sp [lit "og:image"; lit "twitter:image"] in
  let video_candidates :=
    meta_values sp [lit "og:video"; lit "og:video:url"; lit "twitter:player"] in
  let image_candidates :=
    image_candidates
    ++ flat_map (fun img =>
         http_candidate (first_truthy [img_src img; img_data_src img; img_data_original img]))
       (imgs sp) in
  let video_candidates :=
    video_candidates
    ++ flat_map (fun video =>
         http_candidate (first_truthy [video_src video])
         ++ flat_map (fun source => http_candidate (first_truthy [source]))
                     (video_sources video))
       (video_tags sp) in
  let script_text := join (lit " ") (scripts sp) in
  let script_urls := extract_urls_from_text script_text in
  let '(classified_images, classified_videos) := classify_media_urls script_urls in
  (title,
   uniq_by_path (image_candidates ++ classified_images),
   uniq_by_path (video_candidates ++ classified_videos)).

Variable env : Env.

Definition parse_static (source_url cookie_text : str) : outcome ProductInfo :=
  match fetch_html env source_url cookie_text with
  | Raised msg => Raised msg
  | Returned (html, final_url) =>
    let '(title, images, videos) := extract_from_html html in
    let all_images := uniq_by_path images in
    let all_videos := uniq_by_path videos in
    Returned
      {| source_url := source_url;
         final_url := final_url;
         title := title;
         images := take 6 all_images;
         videos := take 3 all_videos;
         raw := <["image_candidates"%string := RList (take 12 all_images)]>
                (<["video_candidates"%string := RList (take 12 all_videos)]>
                (<["method"%string := RStr (lit "static")]>
                (<["html_length"%string := RInt (Z.of_nat (html_length html))]> ∅))) |}
  end.

(** ** Dynamic extraction *)

(** The lists that the listeners of [parse_dynamic_with_playwright] fill. *)
Record Captured := {
  network_urls : list str;
  response_urls : list str;
  json_urls : list str;
  json_images : list str;
  json_videos : list str
}.

Definition no_capture : Captured :=
  {| network_urls := []; response_urls := []; json_urls := [];
     json_images := []; json_videos := [] |}.

Definition on_request (st : Captured) (req_url : str) : Captured :=
  if startswith (lit "http") req_url
  then {| network_urls := network_urls st ++ [req_url];
          response_urls := response_urls st; json_urls := json_urls st;
          json_images := json_images st; json_videos := json_videos st |}
  else st.

(** [on_response]: the lists after the call, and whether the call went
    as far as [response.text()]. *)
Definition on_response (st0 : Captured) (response : Response) : Captured * bool :=
  let st :=
    if startswith (lit "http") (res_url response)
    then {| network_urls := network_urls st0;
            response_urls := response_urls st0 ++ [res_url response];
            json_urls := json_urls st0;
            json_images := json_images st0; json_videos := json_videos st0 |}
    else st0 in
  let content_type := lower (default [] (res_content_type response)) in
  let resource_type := res_resource_type response in
  if negb (str_eqb resource_type (lit "xhr") || str_eqb resource_type (lit "fetch"))
     && negb (contains (lit "json") content_type)
  then (st, false)
  else if (80 <=? length (json_urls st))%nat then (st, false)
  else
    match res_text response with
    | None => (st, true)
    | Some body =>
      if negb (contains (lit "http") body) then (st, true)
      else
        let body_low := lower body in
        if negb (any_in (map lit ["video"; "image"; "goods"; "mp4"; "m3u8"]%string) body_low)
        then (st, true)
        else
          let urls := json_urls st ++ extract_urls_from_text body in
          match res_json response with
          | None =>
            ({| network_urls := network_urls st; response_urls := response_urls st;
                json_urls := urls;
                json_images := json_images st; json_videos := json_videos st |}, true)
          | Some payload =>
            let '(extracted_images, extracted_videos) :=
              extract_media_from_json_obj payload [] in
            ({| network_urls := network_urls st; response_urls := response_urls st;
                json_urls := urls;
                json_images := json_images st ++ extracted_images;
                json_videos := json_videos st ++ extracted_videos |}, true)
          end
    end.

(** The listeners over the events of one run. *)
Definition on_event (st : Captured) (ev : NetEvent) : Captured :=
  match ev with
  | EvRequest url => on_request st url
  | EvResponse r => fst (on_response st r)
  end.

(** Over a sequence of responses delivered to [on_response] from the
    lists [st]: the number of calls that read the body, and the number of
    calls that made [json_urls] longer. *)
Fixpoint bodies_read (st : Captured) (rs : list Response) : nat :=
  match rs with
  | [] => 0
  | r :: rs' =>
    let '(st', was_read) := on_response st r in
    (if was_read then 1 else 0) + bodies_read st' rs'
  end.

Fixpoint bodies_with_urls (st : Captured) (rs : list Response) : nat :=
  match rs with
  | [] => 0
  | r :: rs' =>
    let st' := fst (on_response st r) in
    (if (length (json_urls st) <? length (json_urls st'))%nat then 1 else 0)
    + bodies_with_urls st' rs'
  end.

Definition parse_dynamic_with_playwright (source_url : str) : outcome ProductInfo :=
  match browse env source_url with
  | Raised msg => Raised msg
  | Returned run =>
    let cap := fold_left on_event (run_events run) no_capture in
    let html := run_html run in
    let '(title, images, videos) := extract_from_html html in
    let images := images ++ run_imgs run in
    let videos := videos ++ run_videos run in
    let videos := videos ++ run_links run in
    let images := images ++ json_images cap in
    let videos := videos ++ json_videos cap in
    let all_network := network_urls cap ++ response_urls cap ++ json_urls cap in
    let '(net_images, net_videos) := classify_media_urls all_network in
    let images := images ++ net_images in
    let videos := videos ++ net_videos in
    let all_images := uniq_by_path images in
    let all_videos := uniq_by_path videos in
    Returned
      {| source_url := source_url;
         final_url := run_final_url run;
         title := title;
         images := take 6 all_images;
         videos := take 3 all_videos;
         raw := <["image_candidates"%string := RList (take 12 all_images)]>
                (<["video_candidates"%string := RList (take 12 all_videos)]>
                (<["json_video_candidates"%string :=
                     RInt (Z.of_nat (length (uniq_by_path (json_videos cap))))]>
                (<["network_urls_count"%string :=
                     RInt (Z.of_nat (length (uniq_by_path all_network)))]>
                (<["method"%string := RStr (lit "playwright")]>
                (<["html_length"%string := RInt (Z.of_nat (html_length html))]> ∅))))) |}
  end.

(** ** Fusion and scoring *)

Definition score_info (info : ProductInfo) : nat :=
  let title_bonus :=
    match title info with
    | [] => 0
    | _ => if str_eqb (title info) PLACEHOLDER_TITLE then 0 else 1
    end in
  length (videos info) * 100 + length (images info) * 10 + title_bonus.

(** [merge_info] changes [base] in place; the model returns the new
    [base]. *)
Definition merge_info (base incoming : ProductInfo) (source_label : str) : ProductInfo :=
  let title' :=
    match title incoming with
    | [] => title base
    | _ =>
      match title base with
      | [] => title incoming
      | _ => if str_eqb (title base) PLACEHOLDER_TITLE then title incoming else title base
      end
    end in
  let final_url' :=
    match final_url incoming with
    | [] => final_url base
    | _ => final_url incoming
    end in
  let merged_images := uniq_by_path (images base ++ images incoming) in
  let merged_videos := uniq_by_path (videos base ++ videos incoming) in
  let raw1 :=
    <["video_candidates"%string :=
        RList (take 12 (uniq_by_path (raw_list "video_candidates" (raw base)
                                      ++ raw_list "video_candidates" (raw incoming))))]>
      (raw base) in
  let raw2 :=
    <["image_candidates"%string :=
        RList (take 12 (uniq_by_path (raw_list "image_candidates" (raw base)
                                      ++ raw_list "image_candidates" (raw incoming))))]>
      raw1 in
  let attempts := raw_list "merge_from" raw2 ++ [source_label] in
  {| source_url := source_url base;
     final_url := final_url';
     title := title';
     images := take 6 merged_images;
     videos := take 3 merged_videos;
     raw := <["merge_from"%string := RList attempts]> raw2 |}.

(** [max(infos, key=score_info)] of a non-empty list: the first of the
    highest score. *)
Fixpoint max_by_score (best : ProductInfo) (rest : list ProductInfo) : ProductInfo :=
  match rest with
  | [] => best
  | i :: rest' =>
    if (score_info best <? score_info i)%nat then max_by_score i rest'
    else max_by_score best rest'
  end.

(** The static loop of [parse_product_info]: the results and the error
    lines, in the order of the attempts. *)
Fixpoint static_attempts (cookie_text : str) (urls : list str)
  : list ProductInfo * list str :=
  match urls with
  | [] => ([], [])
  | u :: urls' =>
    let '(infos, errors) := static_attempts cookie_text urls' in
    match parse_static u cookie_text with
    | Returned static_info => (static_info :: infos, errors)
    | Raised exc => (infos, (u ++ lit " -> " ++ exc) :: errors)
    end
  end.

(** The second loop that fills [dynamic_attempt_urls]. *)
Definition queue_candidates (queued candidate_urls : list str) : list str :=
  fold_left (fun q u =>
    if negb (bool_decide (u ∈ q)) && negb (is_blocked_jump_url u) then q ++ [u] else q)
    candidate_urls queued.

(** The dynamic loop of [parse_product_info] from attempt [idx] on: the
    running result and the log lines. *)
Fixpoint dynamic_attempts (idx : nat) (urls : list str) (info : ProductInfo)
  (dynamic_logs : list str) : ProductInfo * list str :=
  match urls with
  | [] => (info, dynamic_logs)
  | u :: urls' =>
    match parse_dynamic_with_playwright u with
    | Returned dynamic_info =>
      let info1 :=
        merge_info info dynamic_info (lit "dynamic_" ++ str_of_nat idx ++ lit ":" ++ u) in
      let raw1 :=
        <["network_urls_count"%string :=
            RInt (Z.max (raw_int "network_urls_count" (raw info1))
                        (raw_int "network_urls_count" (raw dynamic_info)))]> (raw info1) in
      let raw2 :=
        <["json_video_candidates"%string :=
            RInt (Z.max (raw_int "json_video_candidates" raw1)
                        (raw_int "json_video_candidates" (raw dynamic_info)))]> raw1 in
      let logs := dynamic_logs ++ [u ++ lit " -> ok"] in
      let info2 :=
        with_raw info1
          (<["method"%string := RStr (lit "hybrid(static+playwright)")]>
           (<["fallback"%string := RStr (lit "playwright")]> raw2)) in
      match videos info2 with
      | _ :: _ => (info2, logs)
      | [] => dynamic_attempts (S idx) urls' info2 logs
      end
    | Raised exc =>
      dynamic_attempts (S idx) urls' info (dynamic_logs ++ [u ++ lit " -> failed: " ++ exc])
    end
  end.

Definition STATIC_FAILED : str := lit "静态抓取全部失败: ".

(** The candidate URLs: the source URL and, when it differs, its
    canonical form. *)
Definition candidate_urls (source_url : str) : list str :=
  let canonical_url := canonicalize_pdd_goods_url source_url in
  if bool_decide (canonical_url = source_url) then [source_url]
  else [source_url; canonical_url].

(** [parse_product_info] up to the choice of the static seed. *)
Definition static_seed (source_url cookie_text : str) : outcome ProductInfo :=
  let canonical_url := canonicalize_pdd_goods_url source_url in
  let '(static_infos, static_errors) :=
    static_attempts cookie_text (candidate_urls source_url) in
  match static_infos with
  | [] => Raised (STATIC_FAILED ++ join (lit " | ") static_errors)
  | first :: others =>
    let best := max_by_score first others in
    let raw0 :=
      <["needs_login"%string := RBool (contains (lit "needs_login=1") source_url)]>
      (<["attempted_urls"%string := RList (candidate_urls source_url)]>
      (<["canonical_url"%string := RStr canonical_url]>
      (<["method"%string := RStr (lit "static")]> (raw best)))) in
    let raw0 :=
      match static_errors with
      | [] => raw0
      | _ => <["static_errors"%string := RList static_errors]> raw0
      end in
    Returned
      {| source_url := source_url; final_url := final_url best; title := title best;
         images := images best; videos := videos best; raw := raw0 |}
  end.

Definition need_dynamic (info : ProductInfo) : bool :=
  match title info with [] => true | _ => false end
  || (length (images info) <? 1)%nat || (length (videos info) <? 1)%nat.

Definition dynamic_attempt_urls (source_url : str) (info : ProductInfo) : list str :=
  let first_try_url :=
    match final_url info with
    | [] => source_url
    | _ => final_url info
    end in
  queue_candidates
    (if negb (is_blocked_jump_url first_try_url) then [first_try_url] else [source_url])
    (candidate_urls source_url).

(** [parse_product_info] after the test of [need_dynamic]: the dynamic
    attempts and the final filter. *)
Definition dynamic_stage (source_url : str) (info : ProductInfo) : ProductInfo :=
  let '(info, dynamic_logs) :=
    dynamic_attempts 0 (dynamic_attempt_urls source_url info) info [] in
  let raw1 :=
    match dynamic_logs with
    | [] => raw info
    | _ => <["dynamic_attempts"%string := RList dynamic_logs]> (raw info)
    end in
  let raw2 :=
    match raw1 !! "fallback"%string, dynamic_logs with
    | None, _ :: _ =>
      <["fallback"%string :=
          RStr (lit "playwright_failed: " ++ join (lit " | ") dynamic_logs)]> raw1
    | _, _ => raw1
    end in
  let info := with_videos info (take 3 (filter_valid_video_urls (videos info))) in
  with_raw info
    (<["video_candidates"%string :=
         RList (take 12 (filter_valid_video_urls (raw_list "video_candidates" raw2)))]>
     raw2).

Definition parse_product_info (source_url cookie_text : str) : outcome ProductInfo :=
  match static_seed source_url cookie_text with
  | Raised msg => Raised msg
  | Returned info =>
    if negb (need_dynamic info) then Returned info
    else Returned (dynamic_stage source_url info)
  end.

End Pipeline.

(** [str.lower] on ASCII text; the examples below are ASCII where case
    matters. *)
Definition ascii_lower (s : str) : str := map ascii_lower_char s.

(** ** Cookie header *)

(** One round of the loop of [parse_cookie_header]. *)
Definition cookie_step (cookies : gmap str str) (part : str) : gmap str str :=
  match partition 61 part with
  | (k, Some v) =>
    let key := strip k in
    let val := strip v in
    match key with
    | [] => cookies
    | _ => <[key := val]> cookies
    end
  | (_, None) => cookies
  end.

Definition parse_cookie_header (cookie_text : str) : gmap str str :=
  match strip cookie_text with
  | [] => ∅
  | _ => fold_left cookie_step (split 59 cookie_text) ∅
  end.

(** ** The calls that raise

    [urlsplit] raises [ValueError] on a host with unbalanced or
    ill-formed brackets and on a host that NFKC normalisation changes
    into one with a delimiter ([_check_bracketed_netloc],
    [_check_bracketed_host] and [_checknetloc] of CPython 3.11 with its
    security fixes). [Url.urlparse] above is the value of a call that
    returns; [Exn] has the calls themselves, with the exception, for
    the functions of [app.py] through which a [ValueError] of
    [urlparse] leaves [parse_product_info] or one of its static
    attempts: each returns what its namesake above returns, or
    raises. *)

Module Exn.

#[global] Instance outcome_ret : MRet outcome := fun A a => Returned a.

#[global] Instance outcome_bind : MBind outcome := fun A B f m =>
  match m with
  | Returned a => f a
  | Raised msg => Raised msg
  end.

(** A loop whose body may raise. *)
Fixpoint fold_outcome {A B} (f : A -> B -> outcome A) (l : list B) (a : A) : outcome A :=
  match l with
  | [] => Returned a
  | b :: l' => a' ← f a b; fold_outcome f l' a'
  end.

Inductive IpVersion := IPv4 | IPv6.

(** The two library calls under [urlsplit] that are not reproduced
    here: [unicodedata.normalize("NFKC", s)] and
    [ipaddress.ip_address(s)], which returns an address of one of the
    two versions or raises [ValueError]. *)
Record UrlLib := {
  nfkc : str -> str;
  ip_address : str -> outcome IpVersion
}.

Definition INVALID_IPV6 : str := lit "Invalid IPv6 URL".

Definition isascii (s : str) : bool := forallb (fun c => (c <? 128)%N) s.

(** [re.match(r"\Av[a-fA-F0-9]+\..+\Z", hostname)] *)
Definition ipvfuture (hostname : str) : bool :=
  match hostname with
  | 118%N :: rest =>
    match span (fun c => match hexval c with Some _ => true | None => false end) rest with
    | (_ :: _, 46%N :: c :: tail) => forallb (fun d => negb (d =? 10)%N) (c :: tail)
    | _ => false
    end
  | _ => false
  end.

Section Library.

Variable lib : UrlLib.

(** [_check_bracketed_host]: the message of the [ValueError], if any. *)
Definition check_bracketed_host (hostname : str) : option str :=
  if startswith (lit "v") hostname then
    if ipvfuture hostname then None else Some (lit "IPvFuture address is invalid")
  else
    match ip_address lib hostname with
    | Raised msg => Some msg
    | Returned IPv4 => Some (lit "An IPv4 address cannot be in brackets")
    | Returned IPv6 => None
    end.

(** [_check_bracketed_netloc] *)
Definition check_bracketed_netloc (netloc : str) : option str :=
  let hostname_and_port := rev (fst (partition 64 (rev netloc))) in
  match partition 91 hostname_and_port with
  | (before_bracket, Some bracketed) =>
    match before_bracket with
    | _ :: _ => Some INVALID_IPV6
    | [] =>
      let '(hostname, port) :=
        match partition 93 bracketed with
        | (h, Some p) => (h, p)
        | (h, None) => (h, [])
        end in
      match port with
      | _ :: _ =>
        if negb (startswith (lit ":") port) then Some INVALID_IPV6
        else check_bracketed_host hostname
      | [] => check_bracketed_host hostname
      end
    end
  | (_, None) => check_bracketed_host (fst (partition 58 hostname_and_port))
  end.

(** [_checknetloc] *)
Definition checknetloc (netloc : str) : option str :=
  match netloc with
  | [] => None
  | _ =>
    if isascii netloc then None
    else
      let n := replace (lit "?") [] (replace (lit "#") [] (replace (lit ":") []
                 (replace (lit "@") [] netloc))) in
      let netloc2 := nfkc lib n in
      if bool_decide (n = netloc2) then None
      else if existsb (fun c => mem c netloc2) (lit "/?#@:")
      then Some (lit "netloc '" ++ netloc
                 ++ lit "' contains invalid characters under NFKC normalization")
      else None
  end.

(** The [ValueError] of [urlsplit], if it raises one: the checks that it
    makes on the netloc it has split off. A URL without [//] after its
    scheme has the empty netloc, which passes them. *)
Definition urlsplit_error (url : str) : option str :=
  let netloc := Url.netloc (urlsplit url) in
  let has_open := mem 91 netloc in
  let has_close := mem 93 netloc in
  if (has_open && negb has_close) || (has_close && negb has_open) then Some INVALID_IPV6
  else
    match (if has_open && has_close then check_bracketed_netloc netloc else None) with
    | Some msg => Some msg
    | None => checknetloc netloc
    end.

Definition urlparse (url : str) : outcome ParseResult :=
  match urlsplit_error url with
  | Some msg => Raised msg
  | None => Returned (Url.urlparse url)
  end.

(** *** URL canonicalizer *)

Definition normalize_url (raw : str) : outcome str :=
  let cleaned := extract_url raw in
  match cleaned with
  | [] => mret []
  | _ =>
    parsed ← urlparse cleaned;
    match scheme parsed with
    | [] => mret (lit "https://" ++ cleaned)
    | _ => mret cleaned
    end
  end.

Definition extract_goods_id (url : str) : outcome str :=
  parsed ← urlparse url;
  let qry := parse_qsl (query parsed) in
  match goods_id_from_query [lit "goods_id"; lit "goodsId"; lit "gid"] qry with
  | Some m => mret m
  | None =>
    match goods_id_from_patterns [lit "goods_id="; lit "/goods/"; lit "goods/"] url with
    | Some m => mret m
    | None => mret []
    end
  end.

Definition canonicalize_pdd_goods_url (url : str) : outcome str :=
  goods_id ← extract_goods_id url;
  match goods_id with
  | [] => mret url
  | _ => mret (GOODS_URL_PREFIX ++ goods_id)
  end.

(** *** Media classifier *)

Variable lower : str -> str.

Definition classify_step (st : list str * list str) (raw : str)
  : outcome (list str * list str) :=
  let '(images, videos) := st in
  let url := normalize_candidate_url (strip raw) in
  if negb (startswith (lit "http") url) then mret st
  else
    let low := lower url in
    if ext_search STATIC_ASSET_EXTS low then mret st
    else
      parsed ← urlparse url;
      let path := lower (Url.path parsed) in
      if ext_search IMAGE_EXTS low then mret (images ++ [url], videos)
      else if ext_search VIDEO_EXTS low then mret (images, videos ++ [url])
      else if any_in VIDEO_HINTS low
              && any_in (map lit ["/video"; "video-"; "/play"; "m3u8"; "mp4"]%string) path
      then mret (images, videos ++ [url])
      else if any_in IMAGE_HINTS low
              && any_in (map lit ["/image"; "/img"; "cover"; "thumb"; "pic"]%string) path
      then mret (images ++ [url], videos)
      else mret st.

Definition classify_media_urls (candidates : list str) : outcome (list str * list str) :=
  '(images, videos) ← fold_outcome classify_step candidates ([], []);
  mret (uniq_by_path images, uniq_by_path videos).

(** One round of the loop of [filter_valid_video_urls]. *)
Definition filter_step (valid : list str) (raw : str) : outcome (list str) :=
  let url := normalize_candidate_url (strip raw) in
  if negb (startswith (lit "http") url) then mret valid
  else
    let low := lower url in
    if ext_search STATIC_ASSET_EXTS low then mret valid
    else if ext_search VIDEO_EXTS low then mret (valid ++ [url])
    else
      parsed ← urlparse url;
      let path := lower (Url.path parsed) in
      if any_in (map lit ["/video"; "video-"; "/play"]%string) path
         && any_in (map lit ["m3u8"; "mp4"; "video"]%string) low
      then mret (valid ++ [url])
      else mret valid.

Definition filter_valid_video_urls (urls : list str) : outcome (list str) :=
  valid ← fold_outcome filter_step urls [];
  mret (uniq_by_path valid).

(** *** Static extraction *)

Definition extract_from_html (html : Html) : outcome (str * list str * list str) :=
  let sp := soup html in
  let title_candidates := meta_values sp [lit "og:title"; lit "twitter:title"] in
  let title :=
    match title_candidates with
    | t :: _ => t
    | [] =>
      match title_text sp with
      | Some (c :: t) => strip (c :: t)
      | _ => []
      end
    end in
  let image_candidates := meta_values sp [lit "og:image"; lit "twitter:image"] in
  let video_candidates :=
    meta_values sp [lit "og:video"; lit "og:video:url"; lit "twitter:player"] in
  let image_candidates :=
    image_candidates
    ++ flat_map (fun img =>
         http_candidate (first_truthy [img_src img; img_data_src img; img_data_original img]))
       (imgs sp) in
  let video_candidates :=
    video_candidates
    ++ flat_map (fun video =>
         http_candidate (first_truthy [video_src video])
         ++ flat_map (fun source => http_candidate (first_truthy [source]))
                     (video_sources video))
       (video_tags sp) in
  let script_text := join (lit " ") (scripts sp) in
  let script_urls := extract_urls_from_text script_text in
  '(classified_images, classified_videos) ← classify_media_urls script_urls;
  mret (title,
        uniq_by_path (image_candidates ++ classified_images),
        uniq_by_path (video_candidates ++ classified_videos)).

Variable env : Env.

Definition parse_static (source_url cookie_text : str) : outcome ProductInfo :=
  '(html, final_url) ← fetch_html env source_url cookie_text;
  '(title, images, videos) ← extract_from_html html;
  let all_images := uniq_by_path images in
  let all_videos := uniq_by_path videos in
  mret
    {| source_url := source_url;
       final_url := final_url;
       title := title;
       images := take 6 all_images;
       videos := take 3 all_videos;
       raw := <["image_candidates"%string := RList (take 12 all_images)]>
              (<["video_candidates"%string := RList (take 12 all_videos)]>
              (<["method"%string := RStr (lit "static")]>
              (<["html_length"%string := RInt (Z.of_nat (html_length html))]> ∅))) |}.

(** *** Orchestration *)

(** The call [parse_dynamic_with_playwright(u, cookie_text, live_page)]
    as the dynamic loop sees it: it returns a result or raises. *)
Variable dynamic : str -> outcome ProductInfo.

(** The static loop of [parse_product_info]: the results and the error
    lines, in the order of the attempts. *)
Fixpoint static_attempts (cookie_text : str) (urls : list str)
  : list ProductInfo * list str :=
  match urls with
  | [] => ([], [])
  | u :: urls' =>
    let '(infos, errors) := static_attempts cookie_text urls' in
    match parse_static u cookie_text with
    | Returned static_info => (static_info :: infos, errors)
    | Raised exc => (infos, (u ++ lit " -> " ++ exc) :: errors)
    end
  end.

(** The dynamic loop of [parse_product_info] from attempt [idx] on: the
    running result and the log lines. *)
Fixpoint dynamic_attempts (idx : nat) (urls : list str) (info : ProductInfo)
  (dynamic_logs : list str) : ProductInfo * list str :=
  match urls with
  | [] => (info, dynamic_logs)
  | u :: urls' =>
    match dynamic u with
    | Returned dynamic_info =>
      let info1 :=
        merge_info info dynamic_info (lit "dynamic_" ++ str_of_nat idx ++ lit ":" ++ u) in
      let raw1 :=
        <["network_urls_count"%string :=
            RInt (Z.max (raw_int "network_urls_count" (raw info1))
                        (raw_int "network_urls_count" (raw dynamic_info)))]> (raw info1) in
      let raw2 :=
        <["json_video_candidates"%string :=
            RInt (Z.max (raw_int "json_video_candidates" raw1)
                        (raw_int "json_video_candidates" (raw dynamic_info)))]> raw1 in
      let logs := dynamic_logs ++ [u ++ lit " -> ok"] in
      let info2 :=
        with_raw info1
          (<["method"%string := RStr (lit "hybrid(static+playwright)")]>
           (<["fallback"%string := RStr (lit "playwright")]> raw2)) in
      match videos info2 with
      | _ :: _ => (info2, logs)
      | [] => dynamic_attempts (S idx) urls' info2 logs
      end
    | Raised exc =>
      dynamic_attempts (S idx) urls' info (dynamic_logs ++ [u ++ lit " -> failed: " ++ exc])
    end
  end.

(** The candidate URLs, from the canonical URL that line 843 returned. *)
Definition candidate_urls (source_url canonical_url : str) : list str :=
  if bool_decide (canonical_url = source_url) then [source_url]
  else [source_url; canonical_url].

(** [parse_product_info] from the static loop up to the choice of the
    static seed. *)
Definition static_seed (source_url canonical_url cookie_text : str) : outcome ProductInfo :=
  let '(static_infos, static_errors) :=
    static_attempts cookie_text (candidate_urls source_url canonical_url) in
  match static_infos with
  | [] => Raised (STATIC_FAILED ++ join (lit " | ") static_errors)
  | first :: others =>
    let best := max_by_score first others in
    let raw0 :=
      <["needs_login"%string := RBool (contains (lit "needs_login=1") source_url)]>
      (<["attempted_urls"%string := RList (candidate_urls source_url canonical_url)]>
      (<["canonical_url"%string := RStr canonical_url]>
      (<["method"%string := RStr (lit "static")]> (raw best)))) in
    let raw0 :=
      match static_errors with
      | [] => raw0
      | _ => <["static_errors"%string := RList static_errors]> raw0
      end in
    mret
      {| source_url := source_url; final_url := final_url best; title := title best;
         images := images best; videos := videos best; raw := raw0 |}
  end.

Definition dynamic_attempt_urls (source_url canonical_url : str) (info : ProductInfo)
  : list str :=
  let first_try_url :=
    match final_url info with
    | [] => source_url
    | _ => final_url info
    end in
  queue_candidates lower
    (if negb (is_blocked_jump_url lower first_try_url) then [first_try_url] else [source_url])
    (candidate_urls source_url canonical_url).

(** [parse_product_info] after the test of [need_dynamic]: the dynamic
    attempts and the final filter, whose two calls are outside any
    [try]. *)
Definition dynamic_stage (source_url canonical_url : str) (info : ProductInfo)
  : outcome ProductInfo :=
  let '(info, dynamic_logs) :=
    dynamic_attempts 0 (dynamic_attempt_urls source_url canonical_url info) info [] in
  let raw1 :=
    match dynamic_logs with
    | [] => raw info
    | _ => <["dynamic_attempts"%string := RList dynamic_logs]> (raw info)
    end in
  let raw2 :=
    match raw1 !! "fallback"%string, dynamic_logs with
    | None, _ :: _ =>
      <["fallback"%string :=
          RStr (lit "playwright_failed: " ++ join (lit " | ") dynamic_logs)]> raw1
    | _, _ => raw1
    end in
  filtered ← filter_valid_video_urls (videos info);
  let info := with_videos info (take 3 filtered) in
  candidates ← filter_valid_video_urls (raw_list "video_candidates" raw2);
  mret (with_raw info (<["video_candidates"%string := RList (take 12 candidates)]> raw2)).

Definition parse_product_info (source_url cookie_text : str) : outcome ProductInfo :=
  canonical_url ← canonicalize_pdd_goods_url source_url;
  info ← static_seed source_url canonical_url cookie_text;
  if negb (need_dynamic info) then mret info
  else dynamic_stage source_url canonical_url info.

End Library.

End Exn.

(** ** Notions of the specification *)

(** The two capped lists of the data model: at most [n] entries, no two
    with the same path. *)
Definition capped_unique (n : nat) (l : list str) : Prop :=
  length l <= n /\ NoDup (path_key <$> l).

Inductive media := Image | Video.

(** The category that one round of [classify_media_urls] gives to a
    normalised URL. *)
Definition media_kind (lower : str -> str) (url : str) : option media :=
  if negb (startswith (lit "http") url) then None
  else
    let low := lower url in
    if ext_search STATIC_ASSET_EXTS low then None
    else
      let path := lower (Url.path (urlparse url)) in
      if ext_search IMAGE_EXTS low then Some Image
      else if ext_search VIDEO_EXTS low then Some Video
      else if any_in VIDEO_HINTS low
              && any_in (map lit ["/video"; "video-"; "/play"; "m3u8"; "mp4"]%string) path
      then Some Video
      else if any_in IMAGE_HINTS low
              && any_in (map lit ["/image"; "/img"; "cover"; "thumb"; "pic"]%string) path
      then Some Image
      else None.

(** A string of five or more decimal digits. *)
Definition goods_id_like (s : str) : Prop :=
  5 <= length s /\ Forall (fun c => isdecimal c = true) s.

(** The line that the static loop records for a failed URL. *)
Definition failure_line (u exc : str) : str := u ++ lit " -> " ++ exc.

(** The keys of [raw] that [merge_info] writes. *)
Definition merge_keys : list string :=
  ["video_candidates"; "image_candidates"; "merge_from"]%string.

(** The characters with a role in a URL or in a query string: the
    controls, the space and the delimiters. *)
Definition url_special (c : N) : bool :=
  (c <=? 32)%N || mem c (lit "#%&+:;=?").

(** The keys of [raw] that one round of the dynamic loop writes. *)
Definition dynamic_keys : list string :=
  merge_keys ++ ["network_urls_count"; "json_video_candidates"; "method"; "fallback"]%string.

(** ** Example inputs *)

(** The share text of end-to-end scenario 2, and the same text with an
    id of five digits. *)
Definition SHARE_TEXT : str :=
  lit "看看这个 https://mobile.yangkeduo.com/xyz.html?goods_id=42 ，".

Definition SHARE_URL : str := lit "https://mobile.yangkeduo.com/xyz.html?goods_id=42".

Definition SHARE_TEXT_5 : str :=
  lit "看看这个 https://mobile.yangkeduo.com/xyz.html?goods_id=12345 ，".

Definition SHARE_URL_5 : str := lit "https://mobile.yangkeduo.com/xyz.html?goods_id=12345".

Definition PRODUCT_URL : str :=
  lit "https://mobile.yangkeduo.com/goods.html?goods_id=123456789".

Definition og (property content : string) : MetaTag :=
  {| meta_property := Some (lit property); meta_name := None;
     meta_content := Some (lit content) |}.

Definition img (src : string) : ImgTag :=
  {| img_src := Some (lit src); img_data_src := None; img_data_original := None |}.

Definition video (src : string) : VideoTag :=
  {| video_src := Some (lit src); video_sources := [] |}.

Definition page (ms : list MetaTag) (ims : list ImgTag) (vs : list VideoTag) : Html :=
  {| html_length := 512;
     soup := {| metas := ms; title_text := None; imgs := ims; video_tags := vs;
                scripts := [] |} |}.

(** A product page with a title, an image and a video element whose
    address has neither a video extension nor a video path. *)
Definition COMPLETE_PAGE : Html :=
  page [og "og:title" "Test Product"] [img "https://x/a.jpg"]
       [video "https://cdn.example.com/clip"].

(** The page of end-to-end scenario 1: a title and an image, no video. *)
Definition NO_VIDEO_PAGE : Html :=
  page [og "og:title" "Test Product"] [img "https://x/a.jpg"] [].

(** A page whose [og:image] is a relative address. *)
Definition RELATIVE_IMAGE_PAGE : Html :=
  page [og "og:title" "Test Product"; og "og:image" "/static/a.jpg"] [] [].

(** A browser run that sees one video address with a video path and one
    without. *)
Definition VIDEO_RUN : BrowserRun :=
  {| run_events := [EvRequest (lit "https://v.example.com/video/clip.mp4")];
     run_final_url := PRODUCT_URL;
     run_html := NO_VIDEO_PAGE;
     run_imgs := [];
     run_videos := [lit "https://cdn.example.com/clip"];
     run_links := [] |}.

(** The static fetch answers every URL with the given page; no browser
    is available. *)
Definition static_only_env (html : Html) : Env :=
  {| fetch_html := fun u _ => Returned (html, u);
     browse := fun _ => Raised (lit "no browser") |}.

(** The static fetch answers with the page without video; the browser
    run finds the videos. *)
Definition dynamic_env : Env :=
  {| fetch_html := fun u _ => Returned (NO_VIDEO_PAGE, u);
     browse := fun _ => Returned VIDEO_RUN |}.

(** Every static fetch fails. *)
Definition offline_env : Env :=
  {| fetch_html := fun _ _ => Raised (lit "connection timed out");
     browse := fun _ => Raised (lit "no browser") |}.

Definition SHARE_URL_9 : str := lit "https://mobile.yangkeduo.com/xyz.html?goods_id=123456789".

Definition blank_info : ProductInfo :=
  {| source_url := PRODUCT_URL; final_url := PRODUCT_URL; title := [];
     images := []; videos := []; raw := ∅ |}.

Definition titled (t : str) : ProductInfo :=
  {| source_url := PRODUCT_URL; final_url := []; title := t;
     images := []; videos := []; raw := ∅ |}.

Definition PLACEHOLDER_INFO : ProductInfo := titled PLACEHOLDER_TITLE.

Definition TITLED_INFO : ProductInfo := titled (lit "Test Product").

(** An XHR response whose body has [http] and a keyword, and no URL. *)
Definition KEYWORD_RESPONSE : Response :=
  {| res_url := lit "https://api.example.com/goods";
     res_content_type := Some (lit "application/json");
     res_resource_type := lit "xhr";
     res_text := Some (lit "http video");
     res_json := None |}.

(** ** Further notions *)

(** The loop of [uniq_by_path] read as a recursion: [seen] holds the
    paths met so far. *)
Fixpoint keep_first (seen : list str) (items : list str) : list str :=
  match items with
  | [] => []
  | x :: l =>
    if bool_decide (path_key x ∈ seen) then keep_first seen l
    else x :: keep_first (path_key x :: seen) l
  end.

(** The entries that the loops of the classifier and of the filter
    produce: a text that its own normalisation leaves as it is. *)
Definition normal (u : str) : Prop := normalize_candidate_url (strip u) = u.

(** A static result with one image, and a dynamic result with the same
    image under another query string and one video. *)
Definition IMAGE_INFO : ProductInfo :=
  {| source_url := PRODUCT_URL; final_url := PRODUCT_URL; title := lit "Test Product";
     images := [lit "https://x/a.jpg?w=1"]; videos := []; raw := ∅ |}.

Definition VIDEO_INFO : ProductInfo :=
  {| source_url := PRODUCT_URL; final_url := PRODUCT_URL; title := PLACEHOLDER_TITLE;
     images := [lit "https://x/a.jpg?w=2"; lit "https://x/b.jpg"];
     videos := [lit "https://v.example.com/video/clip.mp4"]; raw := ∅ |}.

(** The keys of [raw] in a result of [parse_static]. *)
Definition static_keys : list string :=
  ["html_length"; "method"; "video_candidates"; "image_candidates"]%string.

(** The browser fails on the share URL and finds the videos on every
    other URL. *)
Definition flaky_env : Env :=
  {| fetch_html := fun u _ => Returned (NO_VIDEO_PAGE, u);
     browse := fun u => if bool_decide (u = SHARE_URL_9)
                        then Raised (lit "Timeout 45000ms exceeded")
                        else Returned VIDEO_RUN |}.

(** The five lists of the second capture extend those of the first. *)
Definition extends (a b : Captured) : Prop :=
  network_urls a `prefix_of` network_urls b
  /\ response_urls a `prefix_of` response_urls b
  /\ json_urls a `prefix_of` json_urls b
  /\ json_images a `prefix_of` json_images b
  /\ json_videos a `prefix_of` json_videos b.

(** The request and response URLs of a capture all start with [http]. *)
Definition http_only (st : Captured) : Prop :=
  Forall (fun u => startswith (lit "http") u = true) (network_urls st)
  /\ Forall (fun u => startswith (lit "http") u = true) (response_urls st).

(** A well-formed cookie: the name is not empty, name and value are
    trimmed, neither has a semicolon and the name has no equals sign. *)
Definition cookie_wf (name value : str) : Prop :=
  name <> [] /\ strip name = name /\ strip value = value
  /\ Forall (fun d => d <> 59%N) name /\ Forall (fun d => d <> 61%N) name
  /\ Forall (fun d => d <> 59%N) value.

(** ** The calls that raise: what the statements use *)

Definition attempt_fails (lib : Exn.UrlLib) (lower : str -> str) (env : Env)
  (cookie_text u : str) : Prop :=
  exists exc, Exn.parse_static lib lower env u cookie_text = Raised exc.

Definition attempt_lines (lib : Exn.UrlLib) (lower : str -> str) (env : Env)
  (cookie_text : str) (urls : list str) : list str :=
  flat_map (fun u => match Exn.parse_static lib lower env u cookie_text with
                     | Raised exc => [failure_line u exc]
                     | Returned _ => []
                     end) urls.

(** The message of a [ValueError] that [urlparse] raises on some URL. *)
Definition urlparse_message (lib : Exn.UrlLib) (msg : str) : Prop :=
  exists url, Exn.urlsplit_error lib url = Some msg.

(** The library for the examples: their hosts are ASCII and have no
    pair of brackets, so [urlsplit] makes neither call on them. *)
Definition PLAIN_LIB : Exn.UrlLib :=
  {| Exn.nfkc := fun s => s;
     Exn.ip_address := fun _ => Raised (lit "does not appear to be an IPv4 or IPv6 address") |}.

(** A product page with a title and a video element whose address has
    an opening bracket in its host and no closing one. *)
Definition BAD_VIDEO_PAGE : Html :=
  page [og "og:title" "Test Product"] [] [video "https://[bad/clip"].

(** * Properties *)

(** ** Deduplication by path *)

Lemma uniq_step_fold items : forall out seen,
  (forall k, k ∈ seen <-> k ∈ path_key <$> out) ->
  NoDup (path_key <$> out) ->
  exists extra seen',
    fold_left uniq_step items (out, seen) = (out ++ extra, seen')
    /\ extra `sublist_of` items
    /\ (forall k, k ∈ seen' <-> k ∈ path_key <$> (out ++ extra))
    /\ NoDup (path_key <$> (out ++ extra)).
Proof.
  induction items as [|item items IH]; intros out seen Hseen Hnd; simpl.
  - exists [], seen. rewrite app_nil_r. repeat split; auto; apply Hseen.
  - case_bool_decide as Hin.
    + destruct (IH out seen Hseen Hnd) as (extra & seen' & Heq & Hsub & Hs & Hn).
      exists extra, seen'. repeat split; auto; try apply Hs.
      by apply sublist_cons.
    + destruct (IH (out ++ [item]) ({[path_key item]} ∪ seen)) as (extra & seen' & Heq & Hsub & Hs & Hn).
      * intros k. rewrite fmap_app, elem_of_app, elem_of_union, elem_of_singleton.
        simpl. rewrite list_elem_of_singleton, Hseen. tauto.
      * rewrite fmap_app. simpl. apply NoDup_app. split; [done|]. split.
        -- intros k Hk Hk'. apply list_elem_of_singleton in Hk'. subst k.
           apply Hin, Hseen, Hk.
        -- apply NoDup_singleton.
      * exists (item :: extra), seen'. rewrite <- app_assoc in *. simpl in *.
        repeat split; auto; try apply Hs. by apply sublist_skip.
Qed.

Lemma uniq_by_path_sublist items : uniq_by_path items `sublist_of` items.
Proof.
  unfold uniq_by_path.
  destruct (uniq_step_fold items [] ∅) as (extra & seen' & Heq & Hsub & _).
  - intros k. simpl. set_solver.
  - constructor.
  - rewrite Heq. done.
Qed.

Lemma uniq_by_path_NoDup items : NoDup (path_key <$> uniq_by_path items).
Proof.
  unfold uniq_by_path.
  destruct (uniq_step_fold items [] ∅) as (extra & seen' & Heq & _ & _ & Hnd).
  - intros k. simpl. set_solver.
  - constructor.
  - rewrite Heq. done.
Qed.

Lemma take_uniq_capped n items : capped_unique n (take n (uniq_by_path items)).
Proof.
  split.
  - rewrite length_take. lia.
  - rewrite fmap_take. eapply sublist_NoDup; [apply uniq_by_path_NoDup|].
    apply sublist_take.
Qed.

Lemma Forall_uniq_by_path (P : str -> Prop) items :
  Forall P items -> Forall P (uniq_by_path items).
Proof.
  intros H. rewrite Forall_forall in *. intros x Hx. apply H.
  eapply elem_of_sublist; [done|apply uniq_by_path_sublist].
Qed.

Lemma Forall_take_uniq (P : str -> Prop) n items :
  Forall P items -> Forall P (take n (uniq_by_path items)).
Proof. intros H. apply Forall_take. by apply Forall_uniq_by_path. Qed.

(** ** Media classifier *)

Section ClassifierFacts.

Variable lower : str -> str.

Lemma classify_step_kind images videos raw :
  classify_step lower (images, videos) raw =
  let url := normalize_candidate_url (strip raw) in
  match media_kind lower url with
  | Some Image => (images ++ [url], videos)
  | Some Video => (images, videos ++ [url])
  | None => (images, videos)
  end.
Proof.
  unfold classify_step, media_kind. cbv zeta.
  repeat (case_match; try reflexivity; try discriminate).
Qed.

Lemma classify_fold_kinds candidates : forall images videos,
  Forall (fun u => media_kind lower u = Some Image) images ->
  Forall (fun u => media_kind lower u = Some Video) videos ->
  Forall (fun u => media_kind lower u = Some Image)
         (fst (fold_left (classify_step lower) candidates (images, videos)))
  /\ Forall (fun u => media_kind lower u = Some Video)
            (snd (fold_left (classify_step lower) candidates (images, videos))).
Proof.
  induction candidates as [|raw candidates IH]; intros images videos Hi Hv;
    cbn [fold_left].
  - by split.
  - rewrite classify_step_kind. cbv zeta.
    destruct (media_kind lower (normalize_candidate_url (strip raw))) as [[|]|] eqn:Hk.
    + apply IH; [|done]. apply Forall_app. split; [done|]. by constructor.
    + apply IH; [done|]. apply Forall_app. split; [done|]. by constructor.
    + by apply IH.
Qed.

Lemma classify_media_urls_kinds candidates :
  Forall (fun u => media_kind lower u = Some Image)
         (fst (classify_media_urls lower candidates))
  /\ Forall (fun u => media_kind lower u = Some Video)
            (snd (classify_media_urls lower candidates)).
Proof.
  unfold classify_media_urls.
  destruct (classify_fold_kinds candidates [] []) as [Hi Hv]; [constructor..|].
  destruct (fold_left _ _ _) as [images videos]. simpl in *.
  split; by apply Forall_uniq_by_path.
Qed.

(** C9. [classify_media_urls] puts no URL string into both of the lists
    it returns: each entry of the image list is absent from the video
    list. *)
Theorem classify_media_urls_disjoint (candidates : list str) :
  Forall (fun u => u ∉ snd (classify_media_urls lower candidates))
         (fst (classify_media_urls lower candidates)).
Proof.
  destruct (classify_media_urls_kinds candidates) as [Hi Hv].
  rewrite Forall_forall in *. intros u Hu Hu'.
  specialize (Hi u Hu). specialize (Hv u Hu'). congruence.
Qed.

Lemma filter_fold_valid urls : forall valid,
  Forall (fun u => valid_video_url lower u = true) valid ->
  Forall (fun u => valid_video_url lower u = true)
         (fold_left (filter_step lower) urls valid).
Proof.
  induction urls as [|raw urls IH]; intros valid Hv; cbn [fold_left]; [done|].
  apply IH. unfold filter_step.
  destruct (valid_video_url lower (normalize_candidate_url (strip raw))) eqn:E; [|done].
  apply Forall_app. split; [done|]. by constructor.
Qed.

Lemma filter_valid_video_urls_valid urls :
  Forall (fun u => valid_video_url lower u = true) (filter_valid_video_urls lower urls).
Proof.
  unfold filter_valid_video_urls. apply Forall_uniq_by_path, filter_fold_valid. constructor.
Qed.

End ClassifierFacts.

(** ** Fusion: [merge_info] *)

Lemma merge_info_raw_frame (base incoming : ProductInfo) (source_label : str) (k : string) :
  k ∉ merge_keys ->
  raw (merge_info base incoming source_label) !! k = raw base !! k.
Proof.
  intros Hk. unfold merge_info. cbn [raw].
  rewrite !lookup_insert_ne; [done|..]; intros <-; apply Hk;
    unfold merge_keys; repeat constructor.
Qed.

(** C10. [merge_info] leaves [source_url] as it is, leaves [final_url]
    as it is when the incoming one is empty, and changes no key of [raw]
    other than [video_candidates], [image_candidates] and [merge_from];
    the remaining fields are [title], [final_url], [images] and
    [videos]. *)
Theorem merge_info_frame (base incoming : ProductInfo) (source_label : str) :
  source_url (merge_info base incoming source_label) = source_url base
  /\ (final_url incoming = [] ->
      final_url (merge_info base incoming source_label) = final_url base)
  /\ (forall k : string, k ∉ merge_keys ->
      raw (merge_info base incoming source_label) !! k = raw base !! k).
Proof.
  split; [reflexivity|]. split.
  - intros Hf. unfold merge_info. simpl. by rewrite Hf.
  - intros k. apply merge_info_raw_frame.
Qed.

Lemma merge_info_title (base incoming : ProductInfo) (source_label : str) :
  title (merge_info base incoming source_label) =
  if bool_decide (title incoming <> [])
     && (bool_decide (title base = []) || bool_decide (title base = PLACEHOLDER_TITLE))
  then title incoming else title base.
Proof.
  unfold merge_info, str_eqb. simpl.
  destruct (title incoming) as [|c t]; [done|].
  destruct (title base) as [|d b]; [done|].
  simpl. by destruct (bool_decide (d :: b = PLACEHOLDER_TITLE)).
Qed.

(** C3, as amended. When [merge_info] changes the title, the new title
    is the incoming one, it is not empty, and the old title was empty or
    the placeholder; a title that was not empty is replaced only by a
    title other than the placeholder. *)
Theorem merge_info_title_change (base incoming : ProductInfo) (source_label : str) :
  title (merge_info base incoming source_label) <> title base ->
  title (merge_info base incoming source_label) = title incoming
  /\ title incoming <> []
  /\ (title base = [] \/ title base = PLACEHOLDER_TITLE)
  /\ (title base <> [] ->
      title (merge_info base incoming source_label) <> PLACEHOLDER_TITLE).
Proof.
  rewrite merge_info_title. intros Hch.
  destruct (bool_decide (title incoming <> [])) eqn:Hi; [|done].
  apply bool_decide_eq_true in Hi.
  destruct (bool_decide (title base = [])) eqn:Hb.
  - apply bool_decide_eq_true in Hb. simpl in *. repeat split; auto.
  - destruct (bool_decide (title base = PLACEHOLDER_TITLE)) eqn:Hp; [|done].
    apply bool_decide_eq_true in Hp. simpl in *. repeat split; auto.
    intros _ Heq. apply Hch. congruence.
Qed.

(** C2, the caps and the uniqueness: the lists that [merge_info] leaves
    in [base] are capped and have no two entries with the same path,
    whatever it is given. *)
Lemma merge_info_capped (base incoming : ProductInfo) (source_label : str) :
  capped_unique 6 (images (merge_info base incoming source_label))
  /\ capped_unique 3 (videos (merge_info base incoming source_label)).
Proof. split; apply take_uniq_capped. Qed.
(** ** The calls that raise *)

Lemma bind_returned {A B} (m : outcome A) (f : A -> outcome B) (b : B) :
  m ≫= f = Returned b -> exists a, m = Returned a /\ f a = Returned b.
Proof. destruct m as [a|msg]; [by exists a|done]. Qed.

Lemma bind_raised {A B} (m : outcome A) (f : A -> outcome B) (msg : str) :
  m ≫= f = Raised msg -> m = Raised msg \/ exists a, m = Returned a /\ f a = Raised msg.
Proof. destruct m as [a|msg']; [right; by exists a|cbn; intros [= ->]; by left]. Qed.

Lemma fold_outcome_returned {A B} (f : A -> B -> outcome A) (g : A -> B -> A) :
  (forall a b a', f a b = Returned a' -> a' = g a b) ->
  forall l a r, Exn.fold_outcome f l a = Returned r -> r = fold_left g l a.
Proof.
  intros Hf. induction l as [|b l IH]; intros a r; cbn [Exn.fold_outcome fold_left].
  - by intros [= <-].
  - intros H. apply bind_returned in H as (a' & Ha & H).
    apply Hf in Ha as ->. by apply IH.
Qed.

Lemma fold_outcome_raised {A B} (f : A -> B -> outcome A) (P : str -> Prop) :
  (forall a b msg, f a b = Raised msg -> P msg) ->
  forall l a msg, Exn.fold_outcome f l a = Raised msg -> P msg.
Proof.
  intros Hf. induction l as [|b l IH]; intros a msg; cbn [Exn.fold_outcome]; [done|].
  intros H. apply bind_raised in H as [H|(a' & _ & H)]; [by apply (Hf a b)|by apply (IH a')].
Qed.

Section RaisingFacts.

Variable lib : Exn.UrlLib.
Variable lower : str -> str.

(** A call of [urlparse] that returns, returns the value of [Url.urlparse];
    one that raises, raises a message of [urlsplit]. *)
Lemma urlparse_returned url parsed :
  Exn.urlparse lib url = Returned parsed -> parsed = urlparse url.
Proof. unfold Exn.urlparse. destruct (Exn.urlsplit_error lib url); [done|]. by intros [= <-]. Qed.

Lemma urlparse_raised url msg :
  Exn.urlparse lib url = Raised msg -> urlparse_message lib msg.
Proof.
  unfold Exn.urlparse. destruct (Exn.urlsplit_error lib url) as [e|] eqn:E; [|done].
  intros [= <-]. by exists url.
Qed.

(** On a URL whose host is ASCII and has no bracket, [urlsplit] makes
    neither library call and does not raise; on one whose host has an
    opening bracket and no closing one, it raises before either call. *)
Lemma urlsplit_error_plain url :
  Exn.isascii (netloc (urlsplit url)) = true ->
  mem 91 (netloc (urlsplit url)) = false ->
  mem 93 (netloc (urlsplit url)) = false ->
  Exn.urlsplit_error lib url = None.
Proof.
  intros Ha Ho Hc. unfold Exn.urlsplit_error, Exn.checknetloc. rewrite Ho, Hc, Ha.
  cbn [andb orb negb]. by destruct (netloc (urlsplit url)).
Qed.

Lemma urlsplit_error_unbalanced url :
  mem 91 (netloc (urlsplit url)) = true ->
  mem 93 (netloc (urlsplit url)) = false ->
  Exn.urlsplit_error lib url = Some Exn.INVALID_IPV6.
Proof. intros Ho Hc. unfold Exn.urlsplit_error. by rewrite Ho, Hc. Qed.

Lemma normalize_url_returned raw r :
  Exn.normalize_url lib raw = Returned r -> r = normalize_url raw.
Proof.
  unfold Exn.normalize_url, normalize_url. destruct (extract_url raw) as [|c s]; [by intros [= <-]|].
  intros H. apply bind_returned in H as (parsed & Hp & H).
  apply urlparse_returned in Hp as ->.
  destruct (scheme (urlparse (c :: s))); by injection H as <-.
Qed.

Lemma extract_goods_id_returned url goods_id :
  Exn.extract_goods_id lib url = Returned goods_id -> goods_id = extract_goods_id url.
Proof.
  unfold Exn.extract_goods_id, extract_goods_id.
  intros H. apply bind_returned in H as (parsed & Hp & H).
  apply urlparse_returned in Hp as ->.
  destruct (goods_id_from_query _ _); [by injection H as <-|].
  destruct (goods_id_from_patterns _ _); by injection H as <-.
Qed.

Lemma canonicalize_returned url canonical_url :
  Exn.canonicalize_pdd_goods_url lib url = Returned canonical_url ->
  canonical_url = canonicalize_pdd_goods_url url.
Proof.
  unfold Exn.canonicalize_pdd_goods_url, canonicalize_pdd_goods_url.
  intros H. apply bind_returned in H as (goods_id & Hg & H).
  apply extract_goods_id_returned in Hg as <-.
  destruct goods_id; by injection H as <-.
Qed.

Lemma canonicalize_raised url msg :
  Exn.canonicalize_pdd_goods_url lib url = Raised msg -> Exn.urlsplit_error lib url = Some msg.
Proof.
  unfold Exn.canonicalize_pdd_goods_url.
  intros H. apply bind_raised in H as [H|(goods_id & _ & H)]; [|by destruct goods_id].
  unfold Exn.extract_goods_id in H. apply bind_raised in H as [H|(parsed & _ & H)].
  - unfold Exn.urlparse in H. destruct (Exn.urlsplit_error lib url); [by injection H as <-|done].
  - destruct (goods_id_from_query _ _); [done|]. by destruct (goods_id_from_patterns _ _).
Qed.

Lemma classify_step_returned st raw st' :
  Exn.classify_step lib lower st raw = Returned st' -> st' = classify_step lower st raw.
Proof.
  unfold Exn.classify_step, classify_step. destruct st as [images videos].
  destruct (negb _); [by intros [= <-]|].
  destruct (ext_search STATIC_ASSET_EXTS _); [by intros [= <-]|].
  intros H. apply bind_returned in H as (parsed & Hp & H).
  apply urlparse_returned in Hp as ->.
  repeat (match type of H with context [if ?b then _ else _] => destruct b end);
    by injection H as <-.
Qed.

Lemma classify_media_urls_returned candidates r :
  Exn.classify_media_urls lib lower candidates = Returned r ->
  r = classify_media_urls lower candidates.
Proof.
  unfold Exn.classify_media_urls, classify_media_urls.
  intros H. apply bind_returned in H as ([images videos] & Hf & H).
  apply (fold_outcome_returned _ (classify_step lower) classify_step_returned) in Hf as Hf'.
  rewrite <- Hf'. by injection H as <-.
Qed.

Lemma classify_media_urls_raised candidates msg :
  Exn.classify_media_urls lib lower candidates = Raised msg -> urlparse_message lib msg.
Proof.
  unfold Exn.classify_media_urls.
  intros H. apply bind_raised in H as [H|([images videos] & _ & H)]; [|done].
  revert H. apply fold_outcome_raised. clear. intros [images videos] raw msg.
  unfold Exn.classify_step.
  destruct (negb _); [done|]. destruct (ext_search STATIC_ASSET_EXTS _); [done|].
  intros H. apply bind_raised in H as [H|(parsed & _ & H)]; [by apply urlparse_raised in H|].
  repeat (match type of H with context [if ?b then _ else _] => destruct b end); done.
Qed.

Lemma filter_step_returned valid raw valid' :
  Exn.filter_step lib lower valid raw = Returned valid' -> valid' = filter_step lower valid raw.
Proof.
  unfold Exn.filter_step, filter_step, valid_video_url.
  destruct (negb _); [by intros [= <-]|].
  destruct (ext_search STATIC_ASSET_EXTS _); [by intros [= <-]|].
  destruct (ext_search VIDEO_EXTS _); [by intros [= <-]|].
  intros H. apply bind_returned in H as (parsed & Hp & H).
  apply urlparse_returned in Hp as ->.
  destruct (_ && _); by injection H as <-.
Qed.

Lemma filter_valid_video_urls_returned urls valid :
  Exn.filter_valid_video_urls lib lower urls = Returned valid ->
  valid = filter_valid_video_urls lower urls.
Proof.
  unfold Exn.filter_valid_video_urls, filter_valid_video_urls.
  intros H. apply bind_returned in H as (l & Hf & H).
  apply (fold_outcome_returned _ (filter_step lower) filter_step_returned) in Hf as <-.
  by injection H as <-.
Qed.

Lemma filter_valid_video_urls_raised urls msg :
  Exn.filter_valid_video_urls lib lower urls = Raised msg -> urlparse_message lib msg.
Proof.
  unfold Exn.filter_valid_video_urls.
  intros H. apply bind_raised in H as [H|(l & _ & H)]; [|done].
  revert H. apply fold_outcome_raised. clear. intros valid raw msg.
  unfold Exn.filter_step.
  destruct (negb _); [done|]. destruct (ext_search STATIC_ASSET_EXTS _); [done|].
  destruct (ext_search VIDEO_EXTS _); [done|].
  intros H. apply bind_raised in H as [H|(parsed & _ & H)]; [by apply urlparse_raised in H|].
  by destruct (_ && _).
Qed.

Lemma extract_from_html_returned html r :
  Exn.extract_from_html lib lower html = Returned r -> r = extract_from_html lower html.
Proof.
  unfold Exn.extract_from_html, extract_from_html.
  intros H. apply bind_returned in H as ([ims vs] & Hc & H).
  apply classify_media_urls_returned in Hc as <-. by injection H as <-.
Qed.

Variable env : Env.

Lemma parse_static_returned u cookie_text info :
  Exn.parse_static lib lower env u cookie_text = Returned info ->
  parse_static lower env u cookie_text = Returned info.
Proof.
  unfold Exn.parse_static, parse_static.
  intros H. apply bind_returned in H as ([html final] & -> & H).
  apply bind_returned in H as ([[t ims] vs] & He & H).
  apply extract_from_html_returned in He as <-. by injection H as <-.
Qed.

End RaisingFacts.

(** ** URL canonicalizer *)

Lemma isdecimal_range (c : N) :
  isdecimal c = true -> (48 <= c <= 57)%N \/ (1632 <= c)%N.
Proof.
  unfold isdecimal. rewrite existsb_exists. intros (lo & Hin & H).
  apply andb_true_iff in H as [H1 H2]. apply N.leb_le in H1. apply N.ltb_lt in H2.
  assert (F : forallb (fun lo => (lo =? 48) || (1632 <=? lo))%N digit_runs = true)
    by (vm_compute; reflexivity).
  rewrite forallb_forall in F. specialize (F lo Hin).
  apply orb_true_iff in F. rewrite N.eqb_eq, N.leb_le in F. lia.
Qed.

Lemma isdecimal_not_special (c : N) : isdecimal c = true -> url_special c = false.
Proof.
  intros H. apply isdecimal_range in H. unfold url_special.
  change (mem c (lit "#%&+:;=?")) with (mem c [35; 37; 38; 43; 58; 59; 61; 63]%N).
  unfold mem. cbn [existsb].
  rewrite !orb_false_iff, N.leb_gt, !N.eqb_neq. lia.
Qed.

Lemma partition_absent (c : N) (s : str) :
  Forall (fun d => d <> c) s -> partition c s = (s, None).
Proof.
  induction 1 as [|d s Hd _ IH]; simpl; [done|].
  apply N.eqb_neq in Hd. by rewrite Hd, IH.
Qed.

Lemma partition_app_absent (c : N) (a b : str) :
  Forall (fun d => d <> c) a ->
  partition c (a ++ b) = (a ++ fst (partition c b), snd (partition c b)).
Proof.
  induction 1 as [|d s Hd _ IH]; simpl; [by destruct (partition c b)|].
  apply N.eqb_neq in Hd. by rewrite Hd, IH.
Qed.

Lemma split_absent (c : N) (s : str) :
  Forall (fun d => d <> c) s -> split c s = [s].
Proof.
  induction 1 as [|d s Hd _ IH]; simpl; [done|].
  apply N.eqb_neq in Hd. by rewrite Hd, IH.
Qed.

Lemma replace_absent (c : N) (new s : str) :
  Forall (fun d => d <> c) s -> replace [c] new s = s.
Proof.
  unfold replace. induction 1 as [|d s Hd _ IH]; simpl; [done|].
  assert (E : (c =? d)%N = false) by (apply N.eqb_neq; congruence).
  by rewrite E, IH.
Qed.

Lemma mem_absent (c : N) (s : str) :
  Forall (fun d => d <> c) s -> mem c s = false.
Proof.
  unfold mem. induction 1 as [|d s Hd _ IH]; cbn [existsb]; [done|].
  rewrite IH, orb_false_r. apply N.eqb_neq. congruence.
Qed.

Lemma span_all (p : N -> bool) (s : str) :
  Forall (fun c => p c = true) s -> span p s = (s, []).
Proof. induction 1 as [|c s Hc _ IH]; simpl; [done|]. by rewrite Hc, IH. Qed.

Lemma span_fst_Forall (p : N -> bool) (s : str) :
  Forall (fun c => p c = true) (fst (span p s)).
Proof.
  induction s as [|c s IH]; simpl; [constructor|].
  destruct (p c) eqn:E; [|constructor].
  destruct (span p s). simpl in *. by constructor.
Qed.

Lemma digits5_at_like (s m : str) : digits5_at s = Some m -> goods_id_like m.
Proof.
  unfold digits5_at. case_match eqn:E; [|done]. intros [= <-].
  split; [by apply Nat.leb_le|apply span_fst_Forall].
Qed.

Lemma search_like {A} (P : A -> Prop) (m : str -> option A) :
  (forall s a, m s = Some a -> P a) ->
  forall s a, search m s = Some a -> P a.
Proof.
  intros Hm. induction s as [|c s IH]; intros a; simpl.
  - destruct (m []) eqn:E; [|done]. intros [= <-]. eauto.
  - destruct (m (c :: s)) eqn:E; [intros [= <-]; eauto|]. apply IH.
Qed.

Lemma goods_id_from_query_like keys qry m :
  goods_id_from_query keys qry = Some m -> goods_id_like m.
Proof.
  induction keys as [|key keys IH]; simpl; [done|].
  destruct (qs_first key qry) as [v|]; [|done].
  destruct (search digits5_at v) eqn:E; [|done].
  intros [= <-]. eapply (search_like goods_id_like); [|exact E].
  apply digits5_at_like.
Qed.

Lemma goods_id_from_patterns_like prefixes url m :
  goods_id_from_patterns prefixes url = Some m -> goods_id_like m.
Proof.
  induction prefixes as [|p prefixes IH]; simpl; [done|].
  destruct (search (prefixed_digits5_at p) url) eqn:E; [|done].
  intros [= <-]. eapply (search_like goods_id_like); [|exact E].
  intros s a. unfold prefixed_digits5_at. destruct (after_lit false p s); [|done].
  apply digits5_at_like.
Qed.

(** A product id that [extract_goods_id] returns is a run of five or
    more decimal digits. *)
Lemma extract_goods_id_like (url : str) :
  extract_goods_id url <> [] -> goods_id_like (extract_goods_id url).
Proof.
  unfold extract_goods_id.
  destruct (goods_id_from_query _ _) eqn:Eq.
  - intros _. eapply goods_id_from_query_like, Eq.
  - destruct (goods_id_from_patterns _ _) eqn:Ep; [|done].
    intros _. eapply goods_id_from_patterns_like, Ep.
Qed.
Lemma digits_absent (c : N) (s : str) :
  url_special c = true -> Forall (fun d => isdecimal d = true) s ->
  Forall (fun d => d <> c) s.
Proof.
  intros Hc Hs. eapply Forall_impl; [exact Hs|].
  intros d Hd ->. apply isdecimal_not_special in Hd. congruence.
Qed.

Lemma absent_dec (c : N) (s : str) : mem c s = false -> Forall (fun d => d <> c) s.
Proof.
  unfold mem. induction s as [|d s IH]; cbn [existsb]; [constructor|].
  rewrite orb_false_iff, N.eqb_neq. intros [H1 H2]. constructor; [congruence|auto].
Qed.

(** What the splitting functions do to a text with a suffix appended. *)

Lemma partition_app_found (c : N) (a b x y : str) :
  partition c a = (x, Some y) -> partition c (a ++ b) = (x, Some (y ++ b)).
Proof.
  revert x y. induction a as [|d a IH]; intros x y; simpl; [done|].
  destruct (d =? c)%N; [by intros [= <- <-]|].
  destruct (partition c a) as [x' [y'|]] eqn:E; [|done].
  intros [= <- <-]. by rewrite (IH x' y').
Qed.

Lemma span_app_stop (p : N -> bool) (a b x : str) (c : N) (y : str) :
  span p a = (x, c :: y) -> span p (a ++ b) = (x, c :: y ++ b).
Proof.
  revert x. induction a as [|d a IH]; intros x; simpl; [done|].
  destruct (p d); [|by intros [= <- <- <-]].
  destruct (span p a) as [x' y'] eqn:E. intros [= <- ->]. by rewrite (IH x').
Qed.

Lemma lstrip_by_app (p : N -> bool) (a b : str) (c : N) (r : str) :
  lstrip_by p a = c :: r -> lstrip_by p (a ++ b) = c :: r ++ b.
Proof.
  induction a as [|d a IH]; simpl; [done|].
  destruct (p d); [done|]. by intros [= <- <-].
Qed.

Lemma startswith_app (p a b : str) :
  startswith p a = true -> startswith p (a ++ b) = true.
Proof.
  revert a. induction p as [|c p IH]; intros [|d a]; simpl; try done.
  rewrite !andb_true_iff. intros [? ?]. auto.
Qed.

Lemma split_scheme_app (a b : str) (c : N) (s r : str) :
  split_scheme a = (c :: s, r) -> split_scheme (a ++ b) = (c :: s, r ++ b).
Proof.
  unfold split_scheme.
  destruct (partition 58 a) as [x [y|]] eqn:E; [|by destruct x].
  rewrite (partition_app_found _ _ _ _ _ E).
  destruct x as [|c0 pre]; [done|].
  destruct (ascii_alpha c0 && forallb scheme_char (c0 :: pre)); [|done].
  by intros [= <- <- <-].
Qed.

Lemma urlsplit_canonical (id : str) :
  Forall (fun d => isdecimal d = true) id ->
  urlsplit (GOODS_URL_PREFIX ++ id) =
  {| scheme := lit "https"; netloc := lit "mobile.yangkeduo.com";
     path := lit "/goods.html"; params := [];
     query := lit "goods_id=" ++ id; fragment := [] |}.
Proof.
  intros Hid. unfold urlsplit.
  assert (Habs : forall c, url_special c = true -> mem c GOODS_URL_PREFIX = false ->
                 Forall (fun d => d <> c) (GOODS_URL_PREFIX ++ id)).
  { intros c H1 H2. apply Forall_app. split; [by apply absent_dec|by apply digits_absent]. }
  erewrite (lstrip_by_app _ GOODS_URL_PREFIX) by (vm_compute; reflexivity).
  rewrite app_comm_cons.
  match goal with |- context [(?c :: ?r) ++ id] =>
    change (c :: r) with GOODS_URL_PREFIX end.
  unfold unsafe_url_bytes. cbn [fold_left].
  rewrite (replace_absent 9), (replace_absent 13), (replace_absent 10)
    by (apply Habs; vm_compute; reflexivity).
  erewrite (split_scheme_app GOODS_URL_PREFIX) by (vm_compute; reflexivity).
  cbv iota beta.
  rewrite startswith_app by (vm_compute; reflexivity).
  unfold splitnetloc. rewrite drop_app_le by (vm_compute; lia).
  erewrite span_app_stop by (vm_compute; reflexivity).
  cbv iota beta.
  rewrite app_comm_cons, (partition_app_absent 35) by (apply absent_dec; vm_compute; reflexivity).
  rewrite (partition_absent 35 id) by (apply digits_absent; [vm_compute; reflexivity|done]).
  cbn [fst snd]. cbv iota beta.
  erewrite (partition_app_found 63) by (vm_compute; reflexivity).
  cbv iota beta.
  f_equal; vm_compute; reflexivity.
Qed.
Lemma urlparse_canonical (id : str) :
  Forall (fun d => isdecimal d = true) id ->
  query (urlparse (GOODS_URL_PREFIX ++ id)) = lit "goods_id=" ++ id.
Proof.
  intros Hid. unfold urlparse. rewrite (urlsplit_canonical id Hid). cbn [scheme path].
  replace (mem 59 (lit "/goods.html")) with false by (vm_compute; reflexivity).
  by rewrite andb_false_r.
Qed.

Lemma parse_qsl_goods_id (id : str) :
  goods_id_like id ->
  parse_qsl (lit "goods_id=" ++ id) = [(lit "goods_id", id)].
Proof.
  intros [Hlen Hid]. unfold parse_qsl.
  assert (Hne : exists c r, lit "goods_id=" ++ id = c :: r).
  { eexists _, _. vm_compute. reflexivity. }
  destruct Hne as (c & r & Hne). rewrite Hne. rewrite <- Hne. clear c r Hne.
  rewrite split_absent.
  2: { apply Forall_app. split; [apply absent_dec; vm_compute; reflexivity|].
       apply digits_absent; [vm_compute; reflexivity|done]. }
  cbn [flat_map]. rewrite app_nil_r.
  erewrite (partition_app_found 61) by (vm_compute; reflexivity).
  cbn [app].
  destruct id as [|d id]; [simpl in Hlen; lia|].
  unfold plus_to_space, unquote.
  rewrite (replace_absent 43 _ (d :: id)) by (apply digits_absent; [vm_compute; reflexivity|done]).
  rewrite (mem_absent 37 (d :: id)) by (apply digits_absent; [vm_compute; reflexivity|done]).
  cbn [negb].
  let v := eval vm_compute in (lit "goods_id=") in
    replace (lit "goods_id=") with v by (vm_compute; reflexivity).
  cbn [app]. do 2 f_equal.
Qed.

Lemma digits5_at_all (id : str) : goods_id_like id -> digits5_at id = Some id.
Proof.
  intros [Hlen Hid]. unfold digits5_at. rewrite span_all by done. cbn [fst].
  apply Nat.leb_le in Hlen. by rewrite Hlen.
Qed.

Lemma search_here {A} (m : str -> option A) (s : str) (a : A) :
  m s = Some a -> search m s = Some a.
Proof. intros H. destruct s; simpl; by rewrite H. Qed.

(** The product id of a canonical URL is the id it was built from. *)
Lemma extract_goods_id_canonical (id : str) :
  goods_id_like id -> extract_goods_id (GOODS_URL_PREFIX ++ id) = id.
Proof.
  intros Hid. unfold extract_goods_id.
  rewrite urlparse_canonical by apply Hid.
  rewrite parse_qsl_goods_id by done.
  cbn [goods_id_from_query qs_first].
  replace (str_eqb (lit "goods_id") (lit "goods_id")) with true by (vm_compute; reflexivity).
  by rewrite (search_here _ _ _ (digits5_at_all id Hid)).
Qed.

(** A canonical URL is its own canonical form. *)
Lemma canonicalize_canonical (id : str) :
  goods_id_like id ->
  canonicalize_pdd_goods_url (GOODS_URL_PREFIX ++ id) = GOODS_URL_PREFIX ++ id.
Proof.
  intros Hlike. unfold canonicalize_pdd_goods_url.
  rewrite (extract_goods_id_canonical id Hlike).
  destruct id as [|c id]; [|done]. destruct Hlike as [Hlen _]. simpl in Hlen. lia.
Qed.

(** C7. Canonicalization is idempotent on every URL from which a product
    id can be extracted. *)
Theorem canonicalize_idempotent (u : str) :
  extract_goods_id u <> [] ->
  canonicalize_pdd_goods_url (canonicalize_pdd_goods_url u) = canonicalize_pdd_goods_url u.
Proof.
  intros Hne. pose proof (extract_goods_id_like u Hne) as Hlike.
  unfold canonicalize_pdd_goods_url at 2 3.
  destruct (extract_goods_id u) as [|c id] eqn:E; [done|].
  by apply canonicalize_canonical.
Qed.

(** C7 at a share URL with an id of six digits. *)
Lemma canonicalize_idempotent_witness :
  extract_goods_id (lit "https://mobile.yangkeduo.com/xyz.html?goods_id=123456") <> []
  /\ canonicalize_pdd_goods_url
       (canonicalize_pdd_goods_url (lit "https://mobile.yangkeduo.com/xyz.html?goods_id=123456"))
     = canonicalize_pdd_goods_url (lit "https://mobile.yangkeduo.com/xyz.html?goods_id=123456").
Proof.
  split; [vm_compute; discriminate|].
  apply (canonicalize_idempotent (lit "https://mobile.yangkeduo.com/xyz.html?goods_id=123456")).
  vm_compute. discriminate.
Defined.

(** C5 as stated fails. From the URL of the share text no id is
    extracted, so that the id is not [42] and the canonical URL is not
    the goods URL of [42]. *)
Lemma share_text_id_not_extracted :
  normalize_url SHARE_TEXT = SHARE_URL
  /\ extract_goods_id (normalize_url SHARE_TEXT) = []
  /\ extract_goods_id (normalize_url SHARE_TEXT) <> lit "42"
  /\ canonicalize_pdd_goods_url (normalize_url SHARE_TEXT) <> GOODS_URL_PREFIX ++ lit "42".
Proof.
  split; [vm_compute; reflexivity|]. split; [vm_compute; reflexivity|].
  split; vm_compute; discriminate.
Qed.

(** C5, as amended. The URL token of the share text is extracted
    without the Chinese punctuation that follows it; its id [42] has
    fewer than five digits, so that no product id is extracted (from the
    URL or from the share text) and the URL is left as it is; with an id
    of five digits the id is extracted and the URL becomes the goods URL
    of that id. *)
Theorem share_text_canonicalization :
  normalize_url SHARE_TEXT = SHARE_URL
  /\ extract_goods_id SHARE_URL = []
  /\ extract_goods_id SHARE_TEXT = []
  /\ canonicalize_pdd_goods_url SHARE_URL = SHARE_URL
  /\ normalize_url SHARE_TEXT_5 = SHARE_URL_5
  /\ extract_goods_id SHARE_URL_5 = lit "12345"
  /\ canonicalize_pdd_goods_url SHARE_URL_5 = GOODS_URL_PREFIX ++ lit "12345".
Proof. repeat split; vm_compute; reflexivity. Qed.

(** *** [normalize_url] on a text without a URL token *)

Lemma after_lit_startswith (p s r : str) :
  after_lit false p s = Some r -> startswith p s = true.
Proof.
  revert s. induction p as [|a p IH]; intros [|b s]; simpl; try done.
  destruct (a =? b)%N; [apply IH|done].
Qed.

Lemma after_lit_app (p q s r t : str) :
  after_lit false p s = Some r -> after_lit false q r = Some t ->
  after_lit false (p ++ q) s = Some t.
Proof.
  revert s. induction p as [|a p IH]; intros s; simpl.
  - by intros [= ->].
  - destruct s as [|b s]; [done|]. destruct (a =? b)%N; [apply IH|done].
Qed.

Lemma url_group_at_http (s m : str) :
  url_group_at s = Some m ->
  startswith (lit "http://") s = true \/ startswith (lit "https://") s = true.
Proof.
  unfold url_group_at, http_token_at.
  destruct (after_lit false (lit "http") s) as [r|] eqn:Eh; [|done].
  destruct r as [|c r'].
  - replace (after_lit false (lit "://") []) with (@None str) by (vm_compute; reflexivity).
    done.
  - destruct (c =? 115)%N eqn:Ec.
    + apply N.eqb_eq in Ec. subst c.
      destruct (after_lit false (lit "://") r') as [b|] eqn:Es.
      * intros _. right.
        apply (after_lit_startswith _ _ b).
        change (lit "https://") with (lit "http" ++ [115%N] ++ lit "://").
        eapply after_lit_app; [exact Eh|]. simpl. exact Es.
      * destruct (after_lit false (lit "://") (115%N :: r')) as [b|] eqn:Es'; [|done].
        intros _. left. apply (after_lit_startswith _ _ b).
        change (lit "http://") with (lit "http" ++ lit "://").
        eapply after_lit_app; [exact Eh|exact Es'].
    + destruct (after_lit false (lit "://") (c :: r')) as [b|] eqn:Es'; [|done].
      intros _. left. apply (after_lit_startswith _ _ b).
      change (lit "http://") with (lit "http" ++ lit "://").
      eapply after_lit_app; [exact Eh|exact Es'].
Qed.

Lemma contains_cons (p : str) (c : N) (s : str) :
  contains p s = true -> contains p (c :: s) = true.
Proof. intros H. cbn [contains]. rewrite H. apply orb_true_r. Qed.

Lemma contains_app_r (p a b : str) :
  contains p b = true -> contains p (a ++ b) = true.
Proof. intros H. induction a as [|c a IH]; [done|]. by apply contains_cons. Qed.

Lemma contains_app_l (p a b : str) :
  contains p a = true -> contains p (a ++ b) = true.
Proof.
  induction a as [|c a IH]; cbn [contains app].
  - rewrite orb_false_r. intros H. destruct p; [by destruct b|done].
  - rewrite !orb_true_iff. intros [H|H].
    + left. by apply (startswith_app p (c :: a) b).
    + right. by apply IH.
Qed.

Lemma lstrip_by_suffix (f : N -> bool) (s : str) :
  exists t, s = t ++ lstrip_by f s.
Proof.
  induction s as [|c s [t IH]]; [by exists []|]. simpl.
  destruct (f c); [|by exists []]. exists (c :: t). simpl. by rewrite <- IH.
Qed.

Lemma strip_by_infix (f : N -> bool) (s : str) :
  exists a b, s = a ++ strip_by f s ++ b.
Proof.
  unfold strip_by, rstrip_by.
  destruct (lstrip_by_suffix f s) as [a Ha].
  destruct (lstrip_by_suffix f (rev (lstrip_by f s))) as [b Hb].
  exists a, (rev b). rewrite <- rev_app_distr, <- Hb, rev_involutive. exact Ha.
Qed.

Lemma contains_strip (p s : str) :
  contains p (strip s) = true -> contains p s = true.
Proof.
  intros H. destruct (strip_by_infix isspace s) as (a & b & E).
  rewrite E. apply contains_app_r, contains_app_l. exact H.
Qed.

Lemma search_contains {A} (m : str -> option A) (p q : str) :
  (forall s a, m s = Some a -> startswith p s = true \/ startswith q s = true) ->
  forall s a, search m s = Some a -> contains p s = true \/ contains q s = true.
Proof.
  intros Hm. induction s as [|c s IH]; intros a; cbn [search contains].
  - destruct (m []) eqn:E; [|done]. intros _.
    destruct (Hm _ _ E) as [H|H]; rewrite H; auto.
  - destruct (m (c :: s)) eqn:E.
    + intros _. destruct (Hm _ _ E) as [H|H]; rewrite H; auto.
    + intros H. destruct (IH _ H) as [H'|H']; rewrite H', orb_true_r; auto.
Qed.

(** A text without the substrings [http://] and [https://] has no URL
    token. *)
Lemma no_http_no_token (raw : str) :
  contains (lit "http://") raw = false ->
  contains (lit "https://") raw = false ->
  search url_group_at (strip raw) = None.
Proof.
  intros H1 H2. destruct (search url_group_at (strip raw)) as [m|] eqn:E; [|done].
  destruct (search_contains url_group_at _ _ url_group_at_http _ _ E) as [H|H];
    apply contains_strip in H; congruence.
Qed.

(** Where [urlparse] raises on the cleaned text, [normalize_url] raises
    the same exception: line 120 is outside any [try]. *)
Lemma normalize_url_raises (lib : Exn.UrlLib) (raw msg : str) :
  extract_url raw <> [] ->
  Exn.urlparse lib (extract_url raw) = Raised msg ->
  Exn.normalize_url lib raw = Raised msg.
Proof.
  unfold Exn.normalize_url. destruct (extract_url raw) as [|c s]; [done|].
  intros _ ->. reflexivity.
Qed.

(** C4, as amended. On a text in which no URL token is found,
    [normalize_url] returns the empty string when the trimmed text is
    empty; and when [urlparse] returns on the trimmed text, it returns
    that text as it is if the parse has a scheme, and with [https://]
    in front of it otherwise. *)
Theorem normalize_url_without_token (lib : Exn.UrlLib) (raw : str) :
  search url_group_at (strip raw) = None ->
  (strip raw = [] -> Exn.normalize_url lib raw = Returned [])
  /\ (forall parsed,
        strip raw <> [] ->
        Exn.urlparse lib (strip raw) = Returned parsed ->
        Exn.normalize_url lib raw
        = Returned (if bool_decide (scheme parsed = []) then lit "https://" ++ strip raw
                    else strip raw)).
Proof.
  intros Hno. unfold Exn.normalize_url, extract_url. rewrite Hno. split.
  - by intros ->.
  - intros parsed Hne Hp. destruct (strip raw) as [|c s]; [done|]. rewrite Hp.
    change (Returned parsed ≫= ?f) with (f parsed). cbv beta.
    destruct (scheme parsed) as [|c' s']; [by rewrite bool_decide_eq_true_2|].
    by rewrite bool_decide_eq_false_2.
Qed.

(** C4 at the text [mailto:abc] (kept) and, with the hypothesis in the
    form of absent substrings, at the text [hello] (prefixed). *)
Lemma normalize_url_without_token_witness :
  search url_group_at (strip (lit " mailto:abc ")) = None
  /\ Exn.urlparse PLAIN_LIB (strip (lit " mailto:abc ")) = Returned (urlparse (lit "mailto:abc"))
  /\ Exn.normalize_url PLAIN_LIB (lit " mailto:abc ") = Returned (lit "mailto:abc")
  /\ Exn.normalize_url PLAIN_LIB (lit " hello ") = Returned (lit "https://hello").
Proof.
  assert (H1 : search url_group_at (strip (lit " mailto:abc ")) = None)
    by (vm_compute; reflexivity).
  assert (H2 : search url_group_at (strip (lit " hello ")) = None)
    by (apply no_http_no_token; vm_compute; reflexivity).
  split; [exact H1|]. split; [vm_compute; reflexivity|]. split.
  - rewrite (proj2 (normalize_url_without_token PLAIN_LIB (lit " mailto:abc ") H1)
               (urlparse (lit "mailto:abc")))
      by (vm_compute; first [discriminate | reflexivity]).
    vm_compute. reflexivity.
  - rewrite (proj2 (normalize_url_without_token PLAIN_LIB (lit " hello ") H2)
               (urlparse (lit "hello")))
      by (vm_compute; first [discriminate | reflexivity]).
    vm_compute. reflexivity.
Defined.

(** The text [//[::1] has no URL token either, and on it the call
    raises: the host has an opening bracket and no closing one. *)
Lemma normalize_url_bracket (lib : Exn.UrlLib) :
  search url_group_at (strip (lit "//[::1")) = None
  /\ Exn.normalize_url lib (lit "//[::1") = Raised (lit "Invalid IPv6 URL").
Proof. split; vm_compute; reflexivity. Qed.

(** C4 as stated fails. The text [hello] has no URL token, and
    [normalize_url] returns it with [https://] in front. *)
Lemma normalize_url_not_unchanged :
  search url_group_at (strip (lit "hello")) = None
  /\ normalize_url (lit "hello") = lit "https://hello"
  /\ normalize_url (lit "hello") <> strip (lit "hello").
Proof.
  split; [vm_compute; reflexivity|]. split; [vm_compute; reflexivity|].
  vm_compute. discriminate.
Qed.

(** ** Fusion: the static stage *)

Section FusionFacts.

Variable lower : str -> str.
Variable env : Env.

Lemma static_attempts_results cookie_text urls :
  Forall (fun i => exists u, parse_static lower env u cookie_text = Returned i)
         (fst (static_attempts lower env cookie_text urls)).
Proof.
  induction urls as [|u urls IH]; [constructor|].
  cbn [static_attempts].
  destruct (static_attempts lower env cookie_text urls) as [infos errors].
  destruct (parse_static lower env u cookie_text) as [i|exc] eqn:E; simpl in *; [|done].
  constructor; [by exists u|done].
Qed.

Lemma max_by_score_in best rest :
  max_by_score best rest ∈ best :: rest.
Proof.
  revert best. induction rest as [|i rest IH]; intros best; simpl; [by left|].
  destruct (score_info best <? score_info i)%nat.
  - right. apply IH.
  - destruct (proj1 (elem_of_cons _ _ _) (IH best)) as [->|H]; [by left|].
    by do 2 right.
Qed.

(** *** The final filter *)

Lemma dynamic_stage_filtered source_url info :
  Forall (fun u => valid_video_url lower u = true)
         (videos (dynamic_stage lower env source_url info))
  /\ Forall (fun u => valid_video_url lower u = true)
            (raw_list "video_candidates" (raw (dynamic_stage lower env source_url info))).
Proof.
  unfold dynamic_stage.
  destruct (dynamic_attempts lower env 0 _ info []) as [info' logs].
  unfold with_raw, with_videos, raw_list. cbn [videos raw].
  rewrite lookup_insert_eq.
  split; apply Forall_take, filter_valid_video_urls_valid.
Qed.

(** C1, as amended. When the static seed lacks a title, an image or a
    video, the result has gone through the final filter: every entry of
    its [videos] and of its [video_candidates] passes the test of
    [filter_valid_video_urls]. Otherwise the result is the static seed,
    returned as the static stage left it. *)
Theorem final_filter_after_dynamic_stage (source_url cookie_text : str)
  (seed info : ProductInfo) :
  static_seed lower env source_url cookie_text = Returned seed ->
  parse_product_info lower env source_url cookie_text = Returned info ->
  (need_dynamic seed = true ->
     Forall (fun u => valid_video_url lower u = true) (videos info)
     /\ Forall (fun u => valid_video_url lower u = true)
               (raw_list "video_candidates" (raw info)))
  /\ (need_dynamic seed = false -> info = seed).
Proof.
  intros Hseed. unfold parse_product_info. rewrite Hseed.
  destruct (need_dynamic seed); cbn [negb]; intros [= <-].
  - split; [intros _; apply dynamic_stage_filtered|done].
  - by split.
Qed.

(** *** Caps and uniqueness (C2) *)

Lemma parse_static_capped u cookie_text i :
  parse_static lower env u cookie_text = Returned i ->
  capped_unique 6 (images i) /\ capped_unique 3 (videos i).
Proof.
  unfold parse_static. destruct (fetch_html env u cookie_text) as [[html fu]|]; [|done].
  destruct (extract_from_html lower html) as [[t ims] vs]. intros [= <-].
  split; apply take_uniq_capped.
Qed.

Lemma parse_dynamic_capped u i :
  parse_dynamic_with_playwright lower env u = Returned i ->
  capped_unique 6 (images i) /\ capped_unique 3 (videos i).
Proof.
  unfold parse_dynamic_with_playwright. destruct (browse env u) as [run|]; [|done].
  destruct (extract_from_html lower (run_html run)) as [[t ims] vs].
  destruct (classify_media_urls lower _) as [ni nv]. intros [= <-].
  split; apply take_uniq_capped.
Qed.

Lemma static_seed_capped source_url cookie_text seed :
  static_seed lower env source_url cookie_text = Returned seed ->
  capped_unique 6 (images seed) /\ capped_unique 3 (videos seed).
Proof.
  unfold static_seed.
  pose proof (static_attempts_results cookie_text (candidate_urls source_url)) as Hres.
  destruct (static_attempts lower env cookie_text (candidate_urls source_url))
    as [[|first others] errors]; simpl in *; [done|].
  intros [= <-]. cbn [images videos].
  rewrite Forall_forall in Hres.
  destruct (Hres _ (max_by_score_in first others)) as [u Hu].
  by apply (parse_static_capped u cookie_text).
Qed.

Lemma dynamic_attempts_images urls : forall idx info logs,
  capped_unique 6 (images info) ->
  capped_unique 6 (images (fst (dynamic_attempts lower env idx urls info logs))).
Proof.
  induction urls as [|u urls IH]; intros idx info logs Hc; [done|].
  cbn [dynamic_attempts].
  destruct (parse_dynamic_with_playwright lower env u) as [dynamic_info|exc]; [|by apply IH].
  set (info1 := merge_info info dynamic_info _).
  match goal with |- context [with_raw info1 ?r] => set (info2 := with_raw info1 r) end.
  assert (Hc2 : capped_unique 6 (images info2)) by apply take_uniq_capped.
  destruct (videos info2); [by apply IH|exact Hc2].
Qed.

(** The caps and the uniqueness by path hold for the result of every
    call of [parse_product_info] that returns. *)
Lemma parse_product_info_capped source_url cookie_text info :
  parse_product_info lower env source_url cookie_text = Returned info ->
  capped_unique 6 (images info) /\ capped_unique 3 (videos info).
Proof.
  unfold parse_product_info.
  destruct (static_seed lower env source_url cookie_text) as [seed|] eqn:Eseed; [|done].
  pose proof (static_seed_capped _ _ _ Eseed) as [Hi Hv].
  destruct (negb (need_dynamic seed)); intros [= <-]; [done|].
  unfold dynamic_stage.
  pose proof (dynamic_attempts_images (dynamic_attempt_urls lower source_url seed) 0 seed [] Hi)
    as Hd.
  destruct (dynamic_attempts lower env 0 _ seed []) as [info' logs].
  unfold with_raw, with_videos. cbn [images videos fst] in *.
  split; [exact Hd|apply take_uniq_capped].
Qed.

End FusionFacts.

(** ** The calls that raise: the stages of [parse_product_info] *)

Section RaisingFusion.

Variable lib : Exn.UrlLib.
Variable lower : str -> str.
Variable env : Env.
Variable dynamic : str -> outcome ProductInfo.

Lemma attempts_errors cookie_text urls :
  snd (Exn.static_attempts lib lower env cookie_text urls)
  = attempt_lines lib lower env cookie_text urls.
Proof.
  unfold attempt_lines. induction urls as [|u urls IH]; [done|].
  cbn [Exn.static_attempts flat_map].
  destruct (Exn.static_attempts lib lower env cookie_text urls) as [infos errors].
  simpl in IH. subst errors. by destruct (Exn.parse_static lib lower env u cookie_text).
Qed.

Lemma attempts_none cookie_text urls :
  fst (Exn.static_attempts lib lower env cookie_text urls) = []
  <-> Forall (attempt_fails lib lower env cookie_text) urls.
Proof.
  induction urls as [|u urls IH]; [by split; [constructor|]|].
  cbn [Exn.static_attempts].
  destruct (Exn.static_attempts lib lower env cookie_text urls) as [infos errors].
  simpl in IH. rewrite Forall_cons. unfold attempt_fails at 1.
  destruct (Exn.parse_static lib lower env u cookie_text) as [i|exc]; simpl.
  - split; [done|]. by intros [[e [=]] _].
  - rewrite IH. split; [intros H; split; [by eexists|done]|by intros [_ H]].
Qed.

Lemma attempts_results cookie_text urls :
  Forall (fun i => exists u, Exn.parse_static lib lower env u cookie_text = Returned i)
         (fst (Exn.static_attempts lib lower env cookie_text urls)).
Proof.
  induction urls as [|u urls IH]; [constructor|].
  cbn [Exn.static_attempts].
  destruct (Exn.static_attempts lib lower env cookie_text urls) as [infos errors].
  destruct (Exn.parse_static lib lower env u cookie_text) as [i|exc] eqn:E; simpl in *; [|done].
  constructor; [by exists u|done].
Qed.

(** Every URL that failed has its line [u -> reason], in the order of
    the attempts. *)
Lemma attempt_lines_all cookie_text urls :
  Forall (attempt_fails lib lower env cookie_text) urls ->
  Forall2 (fun u line => exists exc, Exn.parse_static lib lower env u cookie_text = Raised exc
                                     /\ line = failure_line u exc)
          urls (attempt_lines lib lower env cookie_text urls).
Proof.
  unfold attempt_lines. induction 1 as [|u urls [exc Hu] _ IH]; [constructor|].
  cbn [flat_map]. rewrite Hu. simpl. constructor; [by exists exc|done].
Qed.

(** A static attempt fails when the fetch raises, or when [urlparse]
    raises on an address in a script of the page. *)
Lemma attempt_fails_cases cookie_text u exc :
  Exn.parse_static lib lower env u cookie_text = Raised exc ->
  fetch_html env u cookie_text = Raised exc \/ urlparse_message lib exc.
Proof.
  unfold Exn.parse_static. intros H.
  apply bind_raised in H as [H|([html final] & _ & H)]; [by left|right].
  apply bind_raised in H as [H|([[t ims] vs] & _ & H)]; [|done].
  unfold Exn.extract_from_html in H.
  apply bind_raised in H as [H|([ims vs] & _ & H)]; [|done].
  by apply classify_media_urls_raised in H.
Qed.

Lemma attempt_raw_keys u cookie_text info (k : string) :
  Exn.parse_static lib lower env u cookie_text = Returned info ->
  k ∉ static_keys -> raw info !! k = None.
Proof.
  intros H Hk. apply parse_static_returned in H. revert H. unfold parse_static.
  destruct (fetch_html env u cookie_text) as [[html fu]|]; [|done].
  destruct (extract_from_html lower html) as [[t ims] vs]. intros [= <-]. cbn [raw].
  rewrite !lookup_insert_ne by (intros <-; apply Hk; unfold static_keys; repeat constructor).
  apply lookup_empty.
Qed.

Lemma seed_raised source_url canonical_url cookie_text :
  (exists msg, Exn.static_seed lib lower env source_url canonical_url cookie_text = Raised msg)
  <-> Forall (attempt_fails lib lower env cookie_text)
             (Exn.candidate_urls source_url canonical_url).
Proof.
  rewrite <- attempts_none. unfold Exn.static_seed.
  destruct (Exn.static_attempts lib lower env cookie_text _)
    as [[|first others] errors]; simpl.
  - split; [done|]. intros _. by eexists.
  - split; [by intros [msg [=]]|done].
Qed.

Lemma seed_message source_url canonical_url cookie_text msg :
  Exn.static_seed lib lower env source_url canonical_url cookie_text = Raised msg ->
  msg = STATIC_FAILED
        ++ join (lit " | ") (attempt_lines lib lower env cookie_text
                               (Exn.candidate_urls source_url canonical_url)).
Proof.
  rewrite <- attempts_errors. unfold Exn.static_seed.
  destruct (Exn.static_attempts lib lower env cookie_text _)
    as [[|first others] errors]; simpl; [|done].
  by intros [= <-].
Qed.

Lemma seed_keys source_url canonical_url cookie_text seed :
  Exn.static_seed lib lower env source_url canonical_url cookie_text = Returned seed ->
  raw_list "static_errors" (raw seed)
  = attempt_lines lib lower env cookie_text (Exn.candidate_urls source_url canonical_url)
  /\ raw seed !! "fallback"%string = None
  /\ raw seed !! "method"%string = Some (RStr (lit "static")).
Proof.
  rewrite <- attempts_errors. unfold Exn.static_seed.
  pose proof (attempts_results cookie_text (Exn.candidate_urls source_url canonical_url))
    as Hres.
  destruct (Exn.static_attempts lib lower env cookie_text _)
    as [[|first others] errors]; [done|]. cbn [fst snd] in *.
  intros [= <-]. cbn [raw].
  rewrite Forall_forall in Hres.
  destruct (Hres _ (max_by_score_in first others)) as [u Hu].
  assert (Hf : forall k : string, k ∉ static_keys ->
                 raw (max_by_score first others) !! k = None).
  { intros k. by apply (attempt_raw_keys u cookie_text). }
  assert (Hn : forall k : string, k = "fallback"%string \/ k = "static_errors"%string ->
                 k ∉ static_keys).
  { intros k [->| ->] Hin; unfold static_keys in Hin;
      repeat (apply elem_of_cons in Hin as [[=]|Hin]); inversion Hin. }
  unfold raw_list.
  destruct errors as [|e errors].
  - rewrite !lookup_insert_ne by done. rewrite !Hf by auto.
    split; [done|]. split; [done|]. by rewrite lookup_insert_eq.
  - rewrite lookup_insert_eq. rewrite !lookup_insert_ne by done. rewrite Hf by auto.
    split; [done|]. split; [done|]. by rewrite lookup_insert_eq.
Qed.

(** *** The dynamic stage *)

Lemma attempts_raw urls : forall idx info logs (k : string),
  k ∉ dynamic_keys ->
  raw (fst (Exn.dynamic_attempts dynamic idx urls info logs)) !! k = raw info !! k.
Proof.
  induction urls as [|u urls IH]; intros idx info logs k Hk; [done|].
  cbn [Exn.dynamic_attempts].
  destruct (dynamic u) as [dynamic_info|exc]; [|by apply IH].
  set (info1 := merge_info info dynamic_info _).
  match goal with |- context [with_raw info1 ?r] => set (info2 := with_raw info1 r) end.
  assert (Hraw : raw info2 !! k = raw info !! k).
  { unfold info2, with_raw. cbn [raw].
    rewrite !lookup_insert_ne
      by (intros <-; apply Hk; unfold dynamic_keys, merge_keys; cbn [app];
          solve [repeat constructor]).
    apply merge_info_raw_frame. intros Hin. apply Hk. unfold dynamic_keys.
    apply elem_of_app. by left. }
  destruct (videos info2) eqn:Ev; [|exact Hraw].
  rewrite <- Hraw. by apply (IH (S idx) info2).
Qed.

Lemma attempts_all_fail urls : forall idx info logs,
  (forall u, exists exc, dynamic u = Raised exc) ->
  exists lines,
    Exn.dynamic_attempts dynamic idx urls info logs = (info, logs ++ lines)
    /\ length lines = length urls.
Proof.
  induction urls as [|u urls IH]; intros idx info logs Hall; cbn [Exn.dynamic_attempts].
  - exists []. by rewrite app_nil_r.
  - destruct (Hall u) as [exc ->].
    destruct (IH (S idx) info (logs ++ [u ++ lit " -> failed: " ++ exc]) Hall)
      as (lines & -> & Hlen).
    eexists (_ :: lines). rewrite <- app_assoc. split; [reflexivity|]. cbn [length]. lia.
Qed.

Lemma stage_raised source_url canonical_url info msg :
  Exn.dynamic_stage lib lower dynamic source_url canonical_url info = Raised msg ->
  urlparse_message lib msg.
Proof.
  unfold Exn.dynamic_stage.
  destruct (Exn.dynamic_attempts dynamic 0 _ info []) as [info' logs].
  intros H. apply bind_raised in H as [H|(filtered & _ & H)];
    [by apply filter_valid_video_urls_raised in H|].
  apply bind_raised in H as [H|(candidates & _ & H)]; [|done].
  by apply filter_valid_video_urls_raised in H.
Qed.

Lemma stage_raw source_url canonical_url info info' (k : string) :
  Exn.dynamic_stage lib lower dynamic source_url canonical_url info = Returned info' ->
  k ∉ dynamic_keys -> k <> "dynamic_attempts"%string ->
  raw info' !! k = raw info !! k.
Proof.
  unfold Exn.dynamic_stage. intros H Hk Hk'.
  pose proof (attempts_raw (Exn.dynamic_attempt_urls lower source_url canonical_url info)
                0 info [] k Hk) as Hd.
  destruct (Exn.dynamic_attempts dynamic 0 _ info []) as [info1 logs]. simpl in Hd.
  apply bind_returned in H as (filtered & _ & H).
  apply bind_returned in H as (candidates & _ & H).
  injection H as <-. unfold with_raw, with_videos. cbn [raw].
  assert (Hv : k <> "video_candidates"%string /\ k <> "fallback"%string).
  { split; intros ->; apply Hk; unfold dynamic_keys, merge_keys; cbn [app];
      solve [repeat constructor]. }
  destruct Hv as [Hv Hfb].
  rewrite lookup_insert_ne by done.
  destruct logs as [|l logs].
  - by destruct (raw info1 !! "fallback"%string).
  - destruct (_ !! "fallback"%string); rewrite ?lookup_insert_ne by done; done.
Qed.

(** *** The call *)

(** When every static attempt fails, the call raises the aggregated
    error: the fixed prefix and the lines [url -> reason] of all the
    candidate URLs, joined by a bar. *)
Lemma static_failure_aggregated source_url canonical_url cookie_text :
  Exn.canonicalize_pdd_goods_url lib source_url = Returned canonical_url ->
  Forall (attempt_fails lib lower env cookie_text)
         (Exn.candidate_urls source_url canonical_url) ->
  Exn.parse_product_info lib lower env dynamic source_url cookie_text
  = Raised (STATIC_FAILED
            ++ join (lit " | ")
                 (attempt_lines lib lower env cookie_text
                    (Exn.candidate_urls source_url canonical_url)))
  /\ Forall2 (fun u line =>
                exists exc, Exn.parse_static lib lower env u cookie_text = Raised exc
                            /\ line = failure_line u exc)
             (Exn.candidate_urls source_url canonical_url)
             (attempt_lines lib lower env cookie_text
                (Exn.candidate_urls source_url canonical_url)).
Proof.
  intros Hc Hall. split; [|by apply attempt_lines_all].
  unfold Exn.parse_product_info. rewrite Hc.
  change (Returned canonical_url ≫= ?f) with (f canonical_url). cbv beta.
  destruct (proj2 (seed_raised source_url canonical_url cookie_text) Hall) as [msg Hmsg].
  rewrite Hmsg. by rewrite (seed_message _ _ _ _ Hmsg).
Qed.

(** When one static attempt succeeds, the static stage hands a seed to
    the rest of the call, with the lines of the failed attempts under
    [static_errors]. *)
Lemma static_success_passes source_url canonical_url cookie_text :
  Exn.canonicalize_pdd_goods_url lib source_url = Returned canonical_url ->
  Exists (fun u => exists i, Exn.parse_static lib lower env u cookie_text = Returned i)
         (Exn.candidate_urls source_url canonical_url) ->
  exists seed,
    Exn.static_seed lib lower env source_url canonical_url cookie_text = Returned seed
    /\ raw_list "static_errors" (raw seed)
       = attempt_lines lib lower env cookie_text (Exn.candidate_urls source_url canonical_url)
    /\ Exn.parse_product_info lib lower env dynamic source_url cookie_text
       = if negb (need_dynamic seed) then Returned seed
         else Exn.dynamic_stage lib lower dynamic source_url canonical_url seed.
Proof.
  intros Hc Hex.
  destruct (Exn.static_seed lib lower env source_url canonical_url cookie_text)
    as [seed|msg] eqn:Eseed.
  - exists seed. split; [done|]. split; [by apply (seed_keys _ _ _ _ Eseed)|].
    unfold Exn.parse_product_info. rewrite Hc.
    change (Returned canonical_url ≫= ?f) with (f canonical_url). cbv beta.
    by rewrite Eseed.
  - exfalso.
    assert (Hall : Forall (attempt_fails lib lower env cookie_text)
                          (Exn.candidate_urls source_url canonical_url)).
    { apply seed_raised. by exists msg. }
    rewrite Forall_forall in Hall. apply Exists_exists in Hex as (u & Hu & i & Hi).
    destruct (Hall u Hu) as [exc Hexc]. congruence.
Qed.

(** What the call raises is the aggregated error of the static stage,
    when every static attempt has failed, or a [ValueError] of
    [urlparse]: from line 843 or from the final filter. *)
Lemma parse_product_info_raised source_url cookie_text msg :
  Exn.parse_product_info lib lower env dynamic source_url cookie_text = Raised msg ->
  (exists canonical_url,
     Exn.canonicalize_pdd_goods_url lib source_url = Returned canonical_url
     /\ Forall (attempt_fails lib lower env cookie_text)
               (Exn.candidate_urls source_url canonical_url)
     /\ msg = STATIC_FAILED
              ++ join (lit " | ")
                   (attempt_lines lib lower env cookie_text
                      (Exn.candidate_urls source_url canonical_url)))
  \/ urlparse_message lib msg.
Proof.
  unfold Exn.parse_product_info. intros H.
  apply bind_raised in H as [H|(canonical_url & Hc & H)].
  { right. exists source_url. by apply canonicalize_raised. }
  apply bind_raised in H as [H|(seed & Hs & H)].
  - left. exists canonical_url. split; [done|]. split.
    + apply seed_raised. by exists msg.
    + by apply seed_message.
  - right. destruct (negb (need_dynamic seed)); [done|]. by apply stage_raised in H.
Qed.

(** The lines of the failed static attempts are under [static_errors]
    in every result that the call returns. *)
Lemma parse_product_info_static_errors source_url cookie_text info :
  Exn.parse_product_info lib lower env dynamic source_url cookie_text = Returned info ->
  exists canonical_url,
    Exn.canonicalize_pdd_goods_url lib source_url = Returned canonical_url
    /\ raw_list "static_errors" (raw info)
       = attempt_lines lib lower env cookie_text
           (Exn.candidate_urls source_url canonical_url).
Proof.
  unfold Exn.parse_product_info. intros H.
  apply bind_returned in H as (canonical_url & Hc & H).
  apply bind_returned in H as (seed & Hs & H).
  exists canonical_url. split; [done|].
  destruct (seed_keys _ _ _ _ Hs) as (<- & _ & _).
  destruct (negb (need_dynamic seed)); [by injection H as <-|].
  unfold raw_list. rewrite (stage_raw _ _ _ _ _ H); [done| |done].
  intros Hin. unfold dynamic_keys, merge_keys in Hin. cbn [app] in Hin.
  repeat (apply elem_of_cons in Hin as [[=]|Hin]). inversion Hin.
Qed.

End RaisingFusion.

(** C6 fails on the code. The static attempt on the page whose only
    video address is [https://[bad/clip] succeeds, with that address in
    the video list; no browser is available, every dynamic attempt
    fails and is logged; then the final filter reaches [urlparse] on the
    address, outside any [try], and the call raises [ValueError]. *)
Theorem static_success_still_fatal (lib : Exn.UrlLib) :
  (exists seed,
     Exn.parse_static lib ascii_lower (static_only_env BAD_VIDEO_PAGE) PRODUCT_URL []
     = Returned seed
     /\ videos seed = [lit "https://[bad/clip"])
  /\ Exn.parse_product_info lib ascii_lower (static_only_env BAD_VIDEO_PAGE)
       (parse_dynamic_with_playwright ascii_lower (static_only_env BAD_VIDEO_PAGE))
       PRODUCT_URL []
     = Raised (lit "Invalid IPv6 URL").
Proof.
  split; [|vm_compute; reflexivity].
  eexists. split; [vm_compute; reflexivity|]. vm_compute. reflexivity.
Qed.

(** ** The response listener *)

Section ListenerFacts.

Variable lower : str -> str.

Lemma on_response_json_urls (st : Captured) (r : Response) :
  length (json_urls st) <= length (json_urls (fst (on_response lower st r)))
  /\ (snd (on_response lower st r) = true -> length (json_urls st) < 80)
  /\ (length (json_urls st) < length (json_urls (fst (on_response lower st r))) ->
      snd (on_response lower st r) = true).
Proof.
  unfold on_response.
  set (st1 := if startswith (lit "http") (res_url r) then _ else st).
  assert (E : json_urls st1 = json_urls st).
  { unfold st1. by destruct (startswith (lit "http") (res_url r)). }
  clearbody st1.
  destruct (negb _ && negb _); cbn [fst snd]; rewrite ?E. 1: split; [lia|split; [done|intros; exfalso; lia]].
  destruct (80 <=? length (json_urls st)) eqn:E80; cbn [fst snd]; rewrite ?E;
    [split; [lia|split; [done|intros; exfalso; lia]]|].
  apply Nat.leb_gt in E80.
  destruct (res_text r) as [body|]; cbn [fst snd]; rewrite ?E; [|split; [lia|done]].
  destruct (negb (contains (lit "http") body)); cbn [fst snd]; rewrite ?E; [split; [lia|done]|].
  destruct (negb (any_in _ (lower body))); cbn [fst snd]; rewrite ?E; [split; [lia|done]|].
  destruct (res_json r) as [payload|].
  - destruct (extract_media_from_json_obj lower payload []) as [ei ev].
    cbn [fst snd json_urls]. rewrite length_app. split; [lia|done].
  - cbn [fst snd json_urls]. rewrite length_app. split; [lia|done].
Qed.

Lemma bodies_with_urls_bound (rs : list Response) : forall st : Captured,
  bodies_with_urls lower st rs <= 80 - length (json_urls st).
Proof.
  induction rs as [|r rs IH]; intros st; cbn [bodies_with_urls]; [lia|].
  destruct (on_response_json_urls st r) as (Hle & Hread & Hadd).
  specialize (IH (fst (on_response lower st r))).
  destruct (length (json_urls st) <? length (json_urls (fst (on_response lower st r))))
    eqn:Elt.
  - apply Nat.ltb_lt in Elt. specialize (Hread (Hadd Elt)). lia.
  - apply Nat.ltb_ge in Elt. lia.
Qed.

(** C8, as amended. The listener reads a body only while fewer than 80
    URLs have been collected from the bodies before it, so that over any
    sequence of responses at most 80 bodies add URLs to the collection;
    the number of bodies read has no bound. *)
Theorem listener_bound (rs : list Response) :
  bodies_with_urls lower no_capture rs <= 80
  /\ (forall (st : Captured) (r : Response),
        snd (on_response lower st r) = true -> length (json_urls st) < 80).
Proof.
  split.
  - pose proof (bodies_with_urls_bound rs no_capture). simpl in *. lia.
  - intros st r. apply on_response_json_urls.
Qed.

End ListenerFacts.

(** ** Deduplication by path, continued *)

Lemma uniq_fold_keep_first items : forall out seen (keys : list str),
  (forall k, k ∈ seen <-> k ∈ keys) ->
  fst (fold_left uniq_step items (out, seen)) = out ++ keep_first keys items.
Proof.
  induction items as [|x items IH]; intros out seen keys Hs; cbn [fold_left keep_first].
  - by rewrite app_nil_r.
  - unfold uniq_step at 2.
    destruct (decide (path_key x ∈ seen)) as [Hin|Hin].
    + rewrite (bool_decide_eq_true_2 _ Hin).
      rewrite (bool_decide_eq_true_2 (path_key x ∈ keys)) by (by apply Hs).
      by apply IH.
    + rewrite (bool_decide_eq_false_2 _ Hin).
      rewrite (bool_decide_eq_false_2 (path_key x ∈ keys)) by (by rewrite <- Hs).
      rewrite (IH _ _ (path_key x :: keys)).
      * by rewrite <- app_assoc.
      * intros k. rewrite elem_of_union, elem_of_singleton, elem_of_cons, Hs. tauto.
Qed.

Lemma uniq_by_path_keep_first items : uniq_by_path items = keep_first [] items.
Proof.
  unfold uniq_by_path. rewrite (uniq_fold_keep_first items [] ∅ []); [done|].
  intros k. split; [set_solver|]. by intros ?%elem_of_nil.
Qed.

Lemma keep_first_elem items : forall seen x,
  x ∈ keep_first seen items
  <-> exists pre post, items = pre ++ x :: post
                       /\ (path_key x ∉ path_key <$> pre) /\ (path_key x ∉ seen).
Proof.
  induction items as [|y items IH]; intros seen x; cbn [keep_first].
  - split; [by intros ?%elem_of_nil|]. intros (pre & post & E & _). by destruct pre.
  - case_bool_decide as Hy.
    + rewrite IH. split.
      * intros (pre & post & -> & H1 & H2). exists (y :: pre), post.
        split; [done|]. split; [|done]. rewrite fmap_cons, not_elem_of_cons.
        split; [|done]. intros E. rewrite E in H2. done.
      * intros (pre & post & E & H1 & H2). destruct pre as [|z pre].
        -- injection E as -> ->. done.
        -- injection E as -> ->. exists pre, post. split; [done|].
           rewrite fmap_cons, not_elem_of_cons in H1. tauto.
    + rewrite elem_of_cons, IH. split.
      * intros [->|(pre & post & -> & H1 & H2)].
        -- exists [], items. split; [done|]. split; [|done]. by intros ?%elem_of_nil.
        -- rewrite not_elem_of_cons in H2. exists (y :: pre), post.
           split; [done|]. rewrite fmap_cons, not_elem_of_cons. tauto.
      * intros (pre & post & E & H1 & H2). destruct pre as [|z pre].
        -- injection E as -> ->. by left.
        -- injection E as -> ->. right. exists pre, post.
           rewrite fmap_cons, not_elem_of_cons in H1. rewrite not_elem_of_cons. tauto.
Qed.

(** X1. [uniq_by_path] keeps the order of its input and returns no two
    entries with the same path (the text before the first question
    mark). *)
Theorem uniq_by_path_dedup (items : list str) :
  uniq_by_path items `sublist_of` items /\ NoDup (path_key <$> uniq_by_path items).
Proof. split; [apply uniq_by_path_sublist|apply uniq_by_path_NoDup]. Qed.

(** X2. First seen wins: the entries of [uniq_by_path items] are exactly
    the items that no earlier item shares its path with, so that the
    query string of the first occurrence is the one retained. *)
Theorem uniq_by_path_first_seen (items : list str) (x : str) :
  x ∈ uniq_by_path items
  <-> exists pre post, items = pre ++ x :: post /\ (path_key x ∉ path_key <$> pre).
Proof.
  rewrite uniq_by_path_keep_first, keep_first_elem. split.
  - intros (pre & post & E & H & _). by exists pre, post.
  - intros (pre & post & E & H). exists pre, post. split; [done|]. split; [done|].
    by intros ?%elem_of_nil.
Qed.

Lemma keep_first_NoDup_id items : forall seen,
  NoDup (path_key <$> items) ->
  (forall x, x ∈ items -> path_key x ∉ seen) ->
  keep_first seen items = items.
Proof.
  induction items as [|y items IH]; intros seen Hnd Hs; cbn [keep_first]; [done|].
  rewrite fmap_cons in Hnd. apply NoDup_cons in Hnd as [Hy Hnd].
  rewrite bool_decide_eq_false_2 by (apply Hs; by left).
  f_equal. apply IH; [done|]. intros x Hx. rewrite not_elem_of_cons. split.
  - intros E. apply Hy. rewrite <- E. by apply list_elem_of_fmap_2.
  - apply Hs. by right.
Qed.

Lemma uniq_by_path_fixed (items : list str) :
  NoDup (path_key <$> items) -> uniq_by_path items = items.
Proof.
  intros Hl. rewrite uniq_by_path_keep_first. apply keep_first_NoDup_id; [done|].
  intros x _. by intros ?%elem_of_nil.
Qed.

Lemma uniq_by_path_twice (items : list str) :
  uniq_by_path (uniq_by_path items) = uniq_by_path items.
Proof. apply uniq_by_path_fixed, uniq_by_path_NoDup. Qed.

(** X3. A list without two entries of the same path is returned as it
    is, and so [uniq_by_path] is idempotent. *)
Theorem uniq_by_path_idempotent (items : list str) :
  (NoDup (path_key <$> items) -> uniq_by_path items = items)
  /\ uniq_by_path (uniq_by_path items) = uniq_by_path items.
Proof. split; [apply uniq_by_path_fixed|apply uniq_by_path_twice]. Qed.

(** X3 on two URLs with different paths. *)
Lemma uniq_by_path_idempotent_witness :
  uniq_by_path [lit "https://x/a.jpg?w=1"; lit "https://x/b.jpg?w=1"]
  = [lit "https://x/a.jpg?w=1"; lit "https://x/b.jpg?w=1"].
Proof.
  apply (proj1 (uniq_by_path_idempotent
                  [lit "https://x/a.jpg?w=1"; lit "https://x/b.jpg?w=1"])).
  apply (bool_decide_unpack _). vm_compute. exact I.
Defined.

(** ** Trimming *)

Lemma lstrip_by_app_cases (p : N -> bool) (a b : str) :
  lstrip_by p (a ++ b) =
  match lstrip_by p a with
  | [] => lstrip_by p b
  | c :: r => c :: r ++ b
  end.
Proof.
  induction a as [|d a IH]; [done|]. cbn [app lstrip_by].
  destruct (p d); [exact IH|done].
Qed.

(** [rstrip_by] by recursion from the left. *)
Lemma rstrip_by_cons (p : N -> bool) (c : N) (s : str) :
  rstrip_by p (c :: s) =
  match rstrip_by p s with
  | [] => if p c then [] else [c]
  | d :: r => c :: d :: r
  end.
Proof.
  unfold rstrip_by. cbn [rev]. rewrite lstrip_by_app_cases.
  destruct (lstrip_by p (rev s)) as [|e t] eqn:E.
  - cbn [rev lstrip_by]. by destruct (p c).
  - change (e :: t ++ [c]) with ((e :: t) ++ [c]). rewrite rev_app_distr.
    cbn [rev app]. by destruct (rev t).
Qed.

Lemma rstrip_by_nil (p : N -> bool) : rstrip_by p [] = [].
Proof. reflexivity. Qed.

(** A text without a character of [p] at either end. *)
Lemma rstrip_by_fixed (p : N -> bool) (s : str) :
  rstrip_by p (rstrip_by p s) = rstrip_by p s.
Proof.
  induction s as [|c s IH]; [done|]. rewrite rstrip_by_cons.
  destruct (rstrip_by p s) as [|d r] eqn:E.
  - destruct (p c) eqn:Ec; [done|]. rewrite rstrip_by_cons, rstrip_by_nil. by rewrite Ec.
  - rewrite rstrip_by_cons, IH. done.
Qed.

Lemma lstrip_by_fixed (p : N -> bool) (s : str) :
  lstrip_by p (lstrip_by p s) = lstrip_by p s.
Proof.
  induction s as [|c s IH]; [done|]. cbn [lstrip_by].
  destruct (p c) eqn:Ec; [exact IH|]. cbn [lstrip_by]. by rewrite Ec.
Qed.

Lemma lstrip_by_head (p : N -> bool) (s : str) :
  match lstrip_by p s with
  | [] => True
  | c :: _ => p c = false
  end.
Proof.
  induction s as [|c s IH]; [done|]. cbn [lstrip_by].
  destruct (p c) eqn:Ec; [exact IH|done].
Qed.

Lemma rstrip_by_head (p : N -> bool) (c : N) (s : str) :
  p c = false -> exists r, rstrip_by p (c :: s) = c :: r.
Proof.
  intros Hc. rewrite rstrip_by_cons. destruct (rstrip_by p s) as [|d r].
  - rewrite Hc. by exists [].
  - by exists (d :: r).
Qed.

Lemma strip_by_fixed (p : N -> bool) (s : str) :
  strip_by p (strip_by p s) = strip_by p s.
Proof.
  unfold strip_by. pose proof (lstrip_by_head p s) as Hh.
  destruct (lstrip_by p s) as [|c t]; [done|].
  destruct (rstrip_by_head p c t Hh) as [r Hr]. rewrite Hr.
  cbn [lstrip_by]. rewrite Hh, <- Hr. apply rstrip_by_fixed.
Qed.

Lemma strip_fixed (s : str) : strip (strip s) = strip s.
Proof. apply strip_by_fixed. Qed.

Lemma rstrip_by_app_keep (p : N -> bool) (a : str) (c : N) (r : str) :
  rstrip_by p (c :: r) = c :: r -> rstrip_by p (a ++ c :: r) = a ++ c :: r.
Proof.
  intros H. induction a as [|d a IH]; [exact H|]. cbn [app].
  rewrite rstrip_by_cons, IH. by destruct a.
Qed.

Lemma strip_by_nonempty_head (p : N -> bool) (s : str) (c : N) (r : str) :
  strip_by p s = c :: r -> p c = false /\ rstrip_by p (c :: r) = c :: r.
Proof.
  unfold strip_by. intros H. pose proof (lstrip_by_head p s) as Hh.
  destruct (lstrip_by p s) as [|d t]; [done|].
  destruct (rstrip_by_head p d t Hh) as [r' Hr]. rewrite Hr in H. injection H as -> ->.
  split; [done|]. rewrite <- Hr. apply rstrip_by_fixed.
Qed.

(** ** Candidate normalisation and the stability of the classifier *)

Lemma https_prefix_value : lit "https:" = [104; 116; 116; 112; 115; 58]%N.
Proof. vm_compute. reflexivity. Qed.

Lemma slashes_value : lit "//" = [47; 47]%N.
Proof. vm_compute. reflexivity. Qed.

Lemma http_value : lit "http" = [104; 116; 116; 112]%N.
Proof. vm_compute. reflexivity. Qed.

Lemma normalize_candidate_url_stripped (value : str) :
  strip (normalize_candidate_url value) = normalize_candidate_url value.
Proof.
  unfold normalize_candidate_url.
  destruct (startswith (lit "//") (strip value)) eqn:E; [|apply strip_fixed].
  destruct (strip value) as [|c r] eqn:Ev.
  { rewrite slashes_value in E. done. }
  destruct (strip_by_nonempty_head isspace value c r Ev) as [Hc Hr].
  rewrite https_prefix_value. unfold strip, strip_by.
  change (lstrip_by isspace ([104; 116; 116; 112; 115; 58]%N ++ c :: r))
    with ([104; 116; 116; 112; 115; 58]%N ++ c :: r).
  by apply rstrip_by_app_keep.
Qed.

Lemma normalize_candidate_url_not_relative (value : str) :
  startswith (lit "//") (normalize_candidate_url value) = false.
Proof.
  unfold normalize_candidate_url.
  destruct (startswith (lit "//") (strip value)) eqn:E; [|exact E].
  rewrite https_prefix_value, slashes_value. reflexivity.
Qed.

(** X4. [normalize_candidate_url] returns a trimmed text that is never
    protocol-relative, and normalising twice is the same as normalising
    once. *)
Theorem normalize_candidate_url_idempotent (value : str) :
  strip (normalize_candidate_url value) = normalize_candidate_url value
  /\ startswith (lit "//") (normalize_candidate_url value) = false
  /\ normalize_candidate_url (normalize_candidate_url value) = normalize_candidate_url value.
Proof.
  split; [apply normalize_candidate_url_stripped|].
  split; [apply normalize_candidate_url_not_relative|].
  unfold normalize_candidate_url at 1.
  rewrite normalize_candidate_url_stripped.
  by rewrite normalize_candidate_url_not_relative.
Qed.

(** An entry that a loop has normalised is its own normal form. *)
Lemma renormalize (value : str) :
  normalize_candidate_url (strip (normalize_candidate_url value))
  = normalize_candidate_url value.
Proof.
  rewrite normalize_candidate_url_stripped.
  unfold normalize_candidate_url at 1.
  rewrite normalize_candidate_url_stripped.
  by rewrite normalize_candidate_url_not_relative.
Qed.

Section Stability.

Variable lower : str -> str.

Lemma normal_normalized (raw : str) : normal (normalize_candidate_url (strip raw)).
Proof. unfold normal. apply renormalize. Qed.

Lemma filter_fold_normal urls : forall valid,
  Forall normal valid -> Forall normal (fold_left (filter_step lower) urls valid).
Proof.
  induction urls as [|raw urls IH]; intros valid Hv; cbn [fold_left]; [done|].
  apply IH. unfold filter_step.
  destruct (valid_video_url lower _); [|done].
  apply Forall_app. split; [done|]. constructor; [apply normal_normalized|constructor].
Qed.

Lemma filter_fold_fixed urls : forall valid,
  Forall normal urls -> Forall (fun u => valid_video_url lower u = true) urls ->
  fold_left (filter_step lower) urls valid = valid ++ urls.
Proof.
  induction urls as [|u urls IH]; intros valid Hn Hv; cbn [fold_left].
  - by rewrite app_nil_r.
  - apply Forall_cons in Hn as [Hu Hn]. apply Forall_cons in Hv as [Hvu Hv].
    unfold filter_step at 2. rewrite Hu, Hvu. rewrite IH by done.
    by rewrite <- app_assoc.
Qed.

(** X5. The final filter is idempotent: what
    [filter_valid_video_urls] returns passes through it unchanged. *)
Theorem filter_valid_video_urls_idempotent (urls : list str) :
  filter_valid_video_urls lower (filter_valid_video_urls lower urls)
  = filter_valid_video_urls lower urls.
Proof.
  unfold filter_valid_video_urls at 1.
  rewrite (filter_fold_fixed _ []).
  - cbn [app]. unfold filter_valid_video_urls. apply uniq_by_path_twice.
  - unfold filter_valid_video_urls. apply Forall_uniq_by_path, filter_fold_normal. constructor.
  - apply filter_valid_video_urls_valid.
Qed.

Lemma classify_fold_normal candidates : forall images videos,
  Forall normal images -> Forall normal videos ->
  Forall normal (fst (fold_left (classify_step lower) candidates (images, videos)))
  /\ Forall normal (snd (fold_left (classify_step lower) candidates (images, videos))).
Proof.
  induction candidates as [|raw candidates IH]; intros images videos Hi Hv;
    cbn [fold_left]; [by split|].
  rewrite classify_step_kind. cbv zeta.
  destruct (media_kind lower (normalize_candidate_url (strip raw))) as [[|]|].
  - apply IH; [|done]. apply Forall_app. split; [done|].
    constructor; [apply normal_normalized|constructor].
  - apply IH; [done|]. apply Forall_app. split; [done|].
    constructor; [apply normal_normalized|constructor].
  - by apply IH.
Qed.

Lemma classify_media_urls_normal candidates :
  Forall normal (fst (classify_media_urls lower candidates))
  /\ Forall normal (snd (classify_media_urls lower candidates)).
Proof.
  unfold classify_media_urls.
  destruct (classify_fold_normal candidates [] []) as [Hi Hv]; [constructor..|].
  destruct (fold_left _ _ _) as [images videos]. cbn [fst snd] in *.
  split; by apply Forall_uniq_by_path.
Qed.

Lemma classify_fold_images l : forall images videos,
  Forall normal l -> Forall (fun u => media_kind lower u = Some Image) l ->
  fold_left (classify_step lower) l (images, videos) = (images ++ l, videos).
Proof.
  induction l as [|u l IH]; intros images videos Hn Hk; cbn [fold_left].
  - by rewrite app_nil_r.
  - apply Forall_cons in Hn as [Hu Hn]. apply Forall_cons in Hk as [Hku Hk].
    rewrite classify_step_kind. cbv zeta. rewrite Hu, Hku, IH by done.
    by rewrite <- app_assoc.
Qed.

Lemma classify_fold_videos l : forall images videos,
  Forall normal l -> Forall (fun u => media_kind lower u = Some Video) l ->
  fold_left (classify_step lower) l (images, videos) = (images, videos ++ l).
Proof.
  induction l as [|u l IH]; intros images videos Hn Hk; cbn [fold_left].
  - by rewrite app_nil_r.
  - apply Forall_cons in Hn as [Hu Hn]. apply Forall_cons in Hk as [Hku Hk].
    rewrite classify_step_kind. cbv zeta. rewrite Hu, Hku, IH by done.
    by rewrite <- app_assoc.
Qed.

Lemma media_kind_http (u : str) (k : media) :
  media_kind lower u = Some k ->
  startswith (lit "http") u = true /\ ext_search STATIC_ASSET_EXTS (lower u) = false.
Proof.
  unfold media_kind.
  destruct (startswith (lit "http") u); [|done]. cbn [negb].
  by destruct (ext_search STATIC_ASSET_EXTS (lower u)).
Qed.

Lemma classify_media_urls_NoDup (candidates : list str) :
  NoDup (path_key <$> fst (classify_media_urls lower candidates))
  /\ NoDup (path_key <$> snd (classify_media_urls lower candidates)).
Proof.
  unfold classify_media_urls. destruct (fold_left _ _ _) as [images videos].
  split; apply uniq_by_path_NoDup.
Qed.

(** X6. Every URL that [classify_media_urls] returns, in either list,
    starts with [http] and has no static-asset extension, and neither
    list has two entries with the same path. *)
Theorem classify_media_urls_output (candidates : list str) :
  Forall (fun u => startswith (lit "http") u = true
                   /\ ext_search STATIC_ASSET_EXTS (lower u) = false)
         (fst (classify_media_urls lower candidates)
          ++ snd (classify_media_urls lower candidates))
  /\ NoDup (path_key <$> fst (classify_media_urls lower candidates))
  /\ NoDup (path_key <$> snd (classify_media_urls lower candidates)).
Proof.
  destruct (classify_media_urls_kinds lower candidates) as [Hi Hv].
  split.
  - apply Forall_app. split; (eapply Forall_impl; [eassumption|]);
      intros u; apply media_kind_http.
  - apply classify_media_urls_NoDup.
Qed.

(** X7. The classification is stable: classifying again the images and
    the videos of a result gives that result back. *)
Theorem classify_media_urls_stable (candidates : list str) :
  classify_media_urls lower
    (fst (classify_media_urls lower candidates) ++ snd (classify_media_urls lower candidates))
  = classify_media_urls lower candidates.
Proof.
  destruct (classify_media_urls_kinds lower candidates) as [Hki Hkv].
  destruct (classify_media_urls_normal candidates) as [Hni Hnv].
  destruct (classify_media_urls_NoDup candidates) as [Hdi Hdv].
  destruct (classify_media_urls lower candidates) as [images videos]. cbn [fst snd] in *.
  unfold classify_media_urls. rewrite fold_left_app.
  rewrite classify_fold_images, classify_fold_videos by done. cbn [app].
  f_equal; by apply uniq_by_path_fixed.
Qed.

End Stability.

(** ** URL canonicalizer, continued *)

Lemma http_token_at_head (s : str) (k : nat) :
  http_token_at false isspace s = Some k ->
  exists t, s = 104%N :: t /\ 1 <= k.
Proof.
  unfold http_token_at.
  destruct (after_lit false (lit "http") s) as [r|] eqn:Eh; [|done].
  apply after_lit_startswith in Eh. rewrite http_value in Eh.
  destruct s as [|c t]; [done|]. cbn [startswith] in Eh.
  apply andb_true_iff in Eh as [Ec _]. apply N.eqb_eq in Ec. subst c.
  intros Hk. exists t. split; [done|]. cbv zeta in Hk.
  assert (Htail : forall n t',
            match after_lit false (lit "://") t' with
            | Some b =>
              if (1 <=? length (fst (span (fun c => negb (isspace c)) b)))%nat
              then Some (n + 3 + length (fst (span (fun c => negb (isspace c)) b)))%nat
              else None
            | None => None
            end = Some k -> 1 <= k).
  { intros n t'. destruct (after_lit false (lit "://") t'); [|done].
    destruct (1 <=? _)%nat; [|done]. intros [= <-]. lia. }
  destruct r as [|c r'].
  - by apply (Htail 4%nat) in Hk.
  - destruct (c =? 115)%N.
    + destruct (after_lit false (lit "://") r') as [b|] eqn:Es.
      * destruct (1 <=? length (fst (span (fun c => negb (isspace c)) b)))%nat eqn:E1.
        -- injection Hk as <-. lia.
        -- by apply (Htail 4%nat) in Hk.
      * by apply (Htail 4%nat) in Hk.
    + by apply (Htail 4%nat) in Hk.
Qed.

Lemma url_group_at_head (s m : str) :
  url_group_at s = Some m -> exists t, m = 104%N :: t.
Proof.
  unfold url_group_at. destruct (http_token_at false isspace s) as [k|] eqn:E; [|done].
  destruct (http_token_at_head s k E) as (t & -> & Hk). intros [= <-].
  destruct k as [|k]; [lia|]. by exists (take k t).
Qed.

Lemma search_found_nonempty (s m : str) :
  search url_group_at s = Some m -> s <> [] /\ exists t, m = 104%N :: t.
Proof.
  intros H. split.
  - intros ->. vm_compute in H. discriminate H.
  - eapply (search_like (fun m => exists t, m = 104%N :: t)); [|exact H].
    apply url_group_at_head.
Qed.

Lemma extract_url_empty (raw : str) : extract_url raw = [] <-> strip raw = [].
Proof.
  unfold extract_url. destruct (search url_group_at (strip raw)) as [m|] eqn:E; [|done].
  destruct (search_found_nonempty _ _ E) as [Hne [t ->]].
  split; [|done]. unfold strip_chars, strip_by.
  change (lstrip_by (fun c => mem c (lit "，。,.")) (104%N :: t)) with (104%N :: t).
  destruct (rstrip_by_head (fun c => mem c (lit "，。,.")) 104 t) as [r Hr];
    [vm_compute; reflexivity|].
  rewrite Hr. done.
Qed.

(** X8. [normalize_url] returns the empty string exactly on a blank
    input, the case that the caller has to reject. *)
Theorem normalize_url_empty (raw : str) : normalize_url raw = [] <-> strip raw = [].
Proof.
  rewrite <- extract_url_empty. unfold normalize_url.
  destruct (extract_url raw) as [|c s]; [done|].
  split; [|done]. destruct (scheme (urlparse (c :: s))); [|done].
  intros H. apply (f_equal length) in H. rewrite length_app in H. simpl in H. lia.
Qed.

Lemma replace_app_absent (c : N) (new a b : str) :
  Forall (fun d => d <> c) a -> replace [c] new (a ++ b) = a ++ replace [c] new b.
Proof.
  unfold replace. induction 1 as [|d a Hd _ IH]; [done|]. cbn [app replace_from startswith].
  assert (E : (c =? d)%N = false) by (apply N.eqb_neq; congruence).
  rewrite E. cbn [andb]. by rewrite IH.
Qed.

Lemma scheme_urlsplit (u : str) :
  scheme (urlsplit u)
  = fst (split_scheme (fold_left (fun u b => replace b [] u) unsafe_url_bytes
                                 (lstrip_by c0_control_or_space u))).
Proof.
  unfold urlsplit. destruct (split_scheme _) as [sch url]. cbn [fst].
  destruct (if startswith (lit "//") url then splitnetloc url else ([], url)) as [net url1].
  destruct (partition 35 url1) as [a [b|]]; destruct (partition 63 _) as [a' [b'|]]; done.
Qed.

Lemma scheme_urlparse (u : str) : scheme (urlparse u) = scheme (urlsplit u).
Proof.
  unfold urlparse. destruct (_ && _); [|done]. by destruct (splitparams _).
Qed.

(** A text with [https://] in front parses with the scheme [https]. *)
Lemma scheme_https_prefixed (s : str) :
  scheme (urlparse (lit "https://" ++ s)) = lit "https".
Proof.
  rewrite scheme_urlparse, scheme_urlsplit.
  erewrite (lstrip_by_app _ (lit "https://")) by (vm_compute; reflexivity).
  unfold unsafe_url_bytes. cbn [fold_left].
  change (104%N :: ?r ++ s) with ((104%N :: r) ++ s).
  rewrite (replace_app_absent 9) by (apply absent_dec; vm_compute; reflexivity).
  rewrite (replace_app_absent 13) by (apply absent_dec; vm_compute; reflexivity).
  rewrite (replace_app_absent 10) by (apply absent_dec; vm_compute; reflexivity).
  erewrite split_scheme_app by (vm_compute; reflexivity).
  cbn [fst]. vm_compute. reflexivity.
Qed.

(** A URL that [normalize_url] returns, if not empty, parses with a
    scheme where it parses at all. *)
Lemma normalize_url_scheme_value (raw : str) :
  normalize_url raw <> [] -> scheme (urlparse (normalize_url raw)) <> [].
Proof.
  unfold normalize_url.
  destruct (extract_url raw) as [|c s]; [done|]. intros _.
  destruct (scheme (urlparse (c :: s))) eqn:E; [|by rewrite E].
  rewrite scheme_https_prefixed. vm_compute. discriminate.
Qed.

(** X9. When [normalize_url] returns a URL that is not empty, and
    [urlparse] returns on that URL, the parse has a scheme. *)
Theorem normalize_url_has_scheme (lib : Exn.UrlLib) (raw url : str) (parsed : ParseResult) :
  Exn.normalize_url lib raw = Returned url ->
  url <> [] ->
  Exn.urlparse lib url = Returned parsed ->
  scheme parsed <> [].
Proof.
  intros Hn Hne Hp. apply normalize_url_returned in Hn as ->.
  apply urlparse_returned in Hp as ->. by apply normalize_url_scheme_value.
Qed.

(** X9 at a text without scheme. *)
Lemma normalize_url_has_scheme_witness :
  Exn.normalize_url PLAIN_LIB (lit " example.com/item ")
  = Returned (lit "https://example.com/item")
  /\ scheme (urlparse (lit "https://example.com/item")) <> [].
Proof.
  split; [vm_compute; reflexivity|].
  apply (normalize_url_has_scheme PLAIN_LIB (lit " example.com/item ")
           (lit "https://example.com/item"));
    vm_compute; first [discriminate | reflexivity].
Defined.

(** The second hypothesis of X9 is not idle: for the text [[x] the call
    returns [https://[x], on which [urlparse] raises. *)
Lemma normalize_url_result_unparsed (lib : Exn.UrlLib) :
  Exn.normalize_url lib (lit "[x") = Returned (lit "https://[x")
  /\ Exn.urlparse lib (lit "https://[x") = Raised (lit "Invalid IPv6 URL").
Proof. split; vm_compute; reflexivity. Qed.

(** X10. [extract_goods_id] returns the empty string or a run of five
    or more decimal digits. *)
Theorem extract_goods_id_shape (url : str) :
  extract_goods_id url = [] \/ goods_id_like (extract_goods_id url).
Proof.
  destruct (extract_goods_id url) as [|c s] eqn:E; [by left|]. right.
  rewrite <- E. apply extract_goods_id_like. by rewrite E.
Qed.

Lemma extract_goods_id_canonicalize (url : str) :
  extract_goods_id (canonicalize_pdd_goods_url url) = extract_goods_id url.
Proof.
  unfold canonicalize_pdd_goods_url.
  destruct (extract_goods_id url) as [|c s] eqn:E; [done|].
  apply extract_goods_id_canonical. rewrite <- E. apply extract_goods_id_like. by rewrite E.
Qed.

(** X11. Canonicalization keeps the product id: the id extracted from
    the canonical URL is the id extracted from the URL. *)
Theorem canonicalize_keeps_goods_id (url : str) :
  extract_goods_id (canonicalize_pdd_goods_url url) = extract_goods_id url.
Proof. apply extract_goods_id_canonicalize. Qed.

(** X12. The candidate URLs are one or two distinct URLs, the source URL
    first, and the same product id is extracted from each of them. *)
Theorem candidate_urls_shape (source_url : str) :
  head (candidate_urls source_url) = Some source_url
  /\ length (candidate_urls source_url) <= 2
  /\ NoDup (candidate_urls source_url)
  /\ Forall (fun u => extract_goods_id u = extract_goods_id source_url)
             (candidate_urls source_url).
Proof.
  unfold candidate_urls. case_bool_decide as E.
  - repeat split; [simpl; lia|apply NoDup_singleton|by constructor].
  - repeat split; [simpl; lia| |].
    + apply NoDup_cons. split; [|apply NoDup_singleton].
      intros H. apply list_elem_of_singleton in H. congruence.
    + repeat constructor. apply extract_goods_id_canonicalize.
Qed.

(** ** Scoring and merging *)

(** X13. Videos dominate the score: a result with more videos than
    another one, whose image list is within its cap, has the strictly
    higher score, whatever the images and the titles are. *)
Theorem score_info_videos_dominate (a b : ProductInfo) :
  length (images b) <= 6 ->
  length (videos b) < length (videos a) ->
  score_info b < score_info a.
Proof.
  unfold score_info. intros Hi Hv.
  assert (Hb : forall t : str, match t with
                     | [] => 0
                     | _ => if str_eqb t PLACEHOLDER_TITLE then 0 else 1
                     end <= 1).
  { intros [|c t]; [lia|]. destruct (str_eqb _ _); lia. }
  pose proof (Hb (title b)). lia.
Qed.

(** X13 on a blank result and the same result with one video. *)
Lemma score_info_videos_dominate_witness :
  score_info (with_videos blank_info [])
  < score_info (with_videos blank_info [lit "https://v/a.mp4"]).
Proof.
  apply (score_info_videos_dominate
           (with_videos blank_info [lit "https://v/a.mp4"]) (with_videos blank_info []));
    simpl; lia.
Defined.

Lemma max_by_score_spec rest : forall best,
  exists pre post,
    best :: rest = pre ++ max_by_score best rest :: post
    /\ Forall (fun i => score_info i < score_info (max_by_score best rest)) pre
    /\ Forall (fun i => score_info i <= score_info (max_by_score best rest)) post.
Proof.
  induction rest as [|i rest IH]; intros best; cbn [max_by_score].
  - exists [], []. repeat split; constructor.
  - destruct (score_info best <? score_info i)%nat eqn:E.
    + apply Nat.ltb_lt in E. destruct (IH i) as (pre & post & Heq & Hpre & Hpost).
      exists (best :: pre), post. split; [by rewrite Heq|]. split; [|done].
      constructor; [|done].
      assert (Hi : score_info i <= score_info (max_by_score i rest)).
      { destruct pre as [|p pre]; injection Heq as Hh Ht.
        - rewrite <- Hh. lia.
        - subst p. apply Forall_cons in Hpre as [Hp _]. lia. }
      lia.
    + apply Nat.ltb_ge in E. destruct (IH best) as (pre & post & Heq & Hpre & Hpost).
      destruct pre as [|p pre]; injection Heq as Hh Ht.
      * exists [], (i :: post). split; [cbn [app]; rewrite <- Hh; by rewrite Ht|].
        split; [constructor|]. constructor; [|done]. rewrite <- Hh. lia.
      * subst p. exists (best :: i :: pre), post.
        split; [cbn [app]; by rewrite <- Ht|].
        apply Forall_cons in Hpre as [Hb Hpre]. split; [|done].
        constructor; [done|]. constructor; [lia|done].
Qed.

(** X14. The seed that [parse_product_info] selects among the static
    results has the highest score, and it is the first result of that
    score: every earlier result scores strictly less, no later one
    scores more. *)
Theorem max_by_score_first_highest (first : ProductInfo) (others : list ProductInfo) :
  exists pre post,
    first :: others = pre ++ max_by_score first others :: post
    /\ Forall (fun i => score_info i < score_info (max_by_score first others)) pre
    /\ Forall (fun i => score_info i <= score_info (max_by_score first others)) post.
Proof. apply max_by_score_spec. Qed.

Lemma uniq_by_path_app_prefix (a b : list str) :
  exists extra, uniq_by_path (a ++ b) = uniq_by_path a ++ extra /\ extra `sublist_of` b.
Proof.
  unfold uniq_by_path. rewrite fold_left_app.
  destruct (uniq_step_fold a [] ∅) as (ea & sa & Ha & _ & Hsa & Hna).
  { intros k. split; [set_solver|]. by intros ?%elem_of_nil. }
  { constructor. }
  rewrite Ha. cbn [app] in *.
  destruct (uniq_step_fold b ea sa Hsa Hna) as (eb & sb & Hb & Hsub & _).
  rewrite Hb. cbn [fst]. by exists eb.
Qed.

Lemma take_app_prefix (n : nat) (a extra : list str) :
  length a <= n -> a `prefix_of` take n (a ++ extra).
Proof.
  intros Hn. rewrite take_app. rewrite take_ge by done.
  by apply prefix_app_r.
Qed.

Lemma merged_prefix (n : nat) (a b : list str) :
  capped_unique n a -> a `prefix_of` take n (uniq_by_path (a ++ b)).
Proof.
  intros [Hlen Hnd]. destruct (uniq_by_path_app_prefix a b) as (extra & -> & _).
  rewrite (uniq_by_path_fixed a Hnd). by apply take_app_prefix.
Qed.

(** X15. [merge_info] never removes or moves an entry of a base that
    satisfies the invariant: the images and the videos of the base are
    the first images and videos after the merge, and incoming entries
    only follow them. *)
Theorem merge_info_keeps_base (base incoming : ProductInfo) (source_label : str) :
  capped_unique 6 (images base) ->
  capped_unique 3 (videos base) ->
  images base `prefix_of` images (merge_info base incoming source_label)
  /\ videos base `prefix_of` videos (merge_info base incoming source_label).
Proof. intros Hi Hv. split; by apply merged_prefix. Qed.

(** X15 on a base with one image and an incoming result with the same
    image under another query and a video. *)
Lemma merge_info_keeps_base_witness :
  images IMAGE_INFO `prefix_of` images (merge_info IMAGE_INFO VIDEO_INFO (lit "dynamic_0:u"))
  /\ videos IMAGE_INFO `prefix_of` videos (merge_info IMAGE_INFO VIDEO_INFO (lit "dynamic_0:u")).
Proof.
  apply (merge_info_keeps_base IMAGE_INFO VIDEO_INFO (lit "dynamic_0:u")).
  - split; [simpl; lia|]. vm_compute. repeat constructor; by intros ?%elem_of_nil.
  - split; [simpl; lia|]. constructor.
Defined.

Lemma title_bonus_merge (base incoming : ProductInfo) (source_label : str) :
  match title base with
  | [] => 0
  | _ => if str_eqb (title base) PLACEHOLDER_TITLE then 0 else 1
  end
  <= match title (merge_info base incoming source_label) with
     | [] => 0
     | _ => if str_eqb (title (merge_info base incoming source_label)) PLACEHOLDER_TITLE
            then 0 else 1
     end.
Proof.
  unfold merge_info. cbn [title].
  destruct (title incoming) as [|c t]; [done|].
  destruct (title base) as [|d b]; [lia|].
  destruct (str_eqb (d :: b) PLACEHOLDER_TITLE) eqn:E; [lia|]. by rewrite E.
Qed.

(** X16. Merging never lowers the score of a base that satisfies the
    invariant. *)
Theorem merge_info_score (base incoming : ProductInfo) (source_label : str) :
  capped_unique 6 (images base) ->
  capped_unique 3 (videos base) ->
  score_info base <= score_info (merge_info base incoming source_label).
Proof.
  intros Hi Hv.
  pose proof (prefix_length _ _ (merged_prefix 6 _ (images incoming) Hi)) as Hli.
  pose proof (prefix_length _ _ (merged_prefix 3 _ (videos incoming) Hv)) as Hlv.
  pose proof (title_bonus_merge base incoming source_label) as Ht.
  unfold score_info. cbn [images videos merge_info] in Hli, Hlv.
  change (images (merge_info base incoming source_label))
    with (take 6 (uniq_by_path (images base ++ images incoming))).
  change (videos (merge_info base incoming source_label))
    with (take 3 (uniq_by_path (videos base ++ videos incoming))).
  lia.
Qed.

(** X16 on the same two results. *)
Lemma merge_info_score_witness :
  score_info IMAGE_INFO <= score_info (merge_info IMAGE_INFO VIDEO_INFO (lit "dynamic_0:u")).
Proof.
  apply (merge_info_score IMAGE_INFO VIDEO_INFO (lit "dynamic_0:u")).
  - split; [simpl; lia|]. vm_compute. repeat constructor; by intros ?%elem_of_nil.
  - split; [simpl; lia|]. constructor.
Defined.

(** ** Results of the static and of the dynamic extraction *)

Section ResultFacts.

Variable lower : str -> str.
Variable env : Env.

Lemma take_take_uniq (n m : nat) (l : list str) :
  n <= m -> take n l = take n (take m l).
Proof. intros H. rewrite take_take. f_equal. lia. Qed.

Lemma take_12_facts (l : list str) :
  length (take 12 (uniq_by_path l)) <= 12
  /\ NoDup (path_key <$> take 12 (uniq_by_path l)).
Proof. apply (take_uniq_capped 12). Qed.

(** X17. In a result of [parse_static] the primary lists are the first
    six images and the first three videos of the diagnostic candidate
    lists, which hold at most twelve entries each, no two with the same
    path. *)
Theorem parse_static_lists (u cookie_text : str) (i : ProductInfo) :
  parse_static lower env u cookie_text = Returned i ->
  images i = take 6 (raw_list "image_candidates" (raw i))
  /\ videos i = take 3 (raw_list "video_candidates" (raw i))
  /\ capped_unique 12 (raw_list "image_candidates" (raw i))
  /\ capped_unique 12 (raw_list "video_candidates" (raw i))
  /\ source_url i = u.
Proof.
  unfold parse_static. destruct (fetch_html env u cookie_text) as [[html fu]|]; [|done].
  destruct (extract_from_html lower html) as [[t ims] vs]. intros [= <-].
  unfold raw_list. cbn [images videos raw source_url].
  rewrite lookup_insert_eq, lookup_insert_ne, lookup_insert_eq by done.
  repeat split; try apply take_take_uniq; try apply take_12_facts; lia.
Qed.

(** X18. The same holds for a result of
    [parse_dynamic_with_playwright]. *)
Theorem parse_dynamic_lists (u : str) (i : ProductInfo) :
  parse_dynamic_with_playwright lower env u = Returned i ->
  images i = take 6 (raw_list "image_candidates" (raw i))
  /\ videos i = take 3 (raw_list "video_candidates" (raw i))
  /\ capped_unique 12 (raw_list "image_candidates" (raw i))
  /\ capped_unique 12 (raw_list "video_candidates" (raw i))
  /\ source_url i = u.
Proof.
  unfold parse_dynamic_with_playwright. destruct (browse env u) as [run|]; [|done].
  destruct (extract_from_html lower (run_html run)) as [[t ims] vs].
  destruct (classify_media_urls lower _) as [ni nv]. intros [= <-].
  unfold raw_list. cbn [images videos raw source_url].
  rewrite lookup_insert_eq, lookup_insert_ne, lookup_insert_eq by done.
  repeat split; try apply take_take_uniq; try apply take_12_facts; lia.
Qed.

(** X19. Whatever the two results are, [merge_info] leaves in the base
    at most six images and three videos, no two with the same path, and
    at most twelve candidates of each kind. *)
Theorem merge_info_restores_caps (base incoming : ProductInfo) (source_label : str) :
  capped_unique 6 (images (merge_info base incoming source_label))
  /\ capped_unique 3 (videos (merge_info base incoming source_label))
  /\ capped_unique 12 (raw_list "image_candidates"
                                 (raw (merge_info base incoming source_label)))
  /\ capped_unique 12 (raw_list "video_candidates"
                                 (raw (merge_info base incoming source_label))).
Proof.
  split; [apply take_uniq_capped|]. split; [apply take_uniq_capped|].
  unfold merge_info, raw_list. cbn [raw].
  rewrite lookup_insert_ne, lookup_insert_eq by done.
  rewrite lookup_insert_ne, lookup_insert_ne, lookup_insert_eq by done.
  split; apply take_uniq_capped.
Qed.

(** X20. Every result that [parse_product_info] returns has at most six
    images and three videos, no two with the same path, for any page and
    any network traffic. *)
Theorem parse_product_info_caps (source_url cookie_text : str) (info : ProductInfo) :
  parse_product_info lower env source_url cookie_text = Returned info ->
  capped_unique 6 (images info) /\ capped_unique 3 (videos info).
Proof. apply parse_product_info_capped. Qed.

Lemma dynamic_attempts_source urls : forall idx info logs,
  source_url (fst (dynamic_attempts lower env idx urls info logs)) = source_url info.
Proof.
  induction urls as [|u urls IH]; intros idx info logs; [done|].
  cbn [dynamic_attempts].
  destruct (parse_dynamic_with_playwright lower env u) as [dynamic_info|exc]; [|by apply IH].
  set (info1 := merge_info info dynamic_info _).
  match goal with |- context [with_raw info1 ?r] => set (info2 := with_raw info1 r) end.
  destruct (videos info2); [|done]. by rewrite IH.
Qed.

(** X21. The result of [parse_product_info] carries the source URL of
    the call: no static or dynamic attempt, under another candidate URL,
    and no merge changes it. *)
Theorem parse_product_info_source_url (src cookie_text : str) (info : ProductInfo) :
  parse_product_info lower env src cookie_text = Returned info ->
  source_url info = src.
Proof.
  unfold parse_product_info.
  destruct (static_seed lower env src cookie_text) as [seed|] eqn:Es; [|done].
  assert (Hs : source_url seed = src).
  { unfold static_seed in Es.
    destruct (static_attempts lower env cookie_text (candidate_urls src))
      as [[|first others] errors]; [done|]. by injection Es as <-. }
  destruct (negb (need_dynamic seed)); intros [= <-]; [done|].
  unfold dynamic_stage.
  pose proof (dynamic_attempts_source (dynamic_attempt_urls lower src seed) 0 seed []) as Hd.
  destruct (dynamic_attempts lower env 0 _ seed []) as [info' logs].
  cbn [fst] in Hd. unfold with_raw, with_videos. cbn [source_url]. congruence.
Qed.

End ResultFacts.

(** X17 on the page with a title, an image and a video. *)
Lemma parse_static_lists_witness :
  exists i,
    parse_static ascii_lower (static_only_env COMPLETE_PAGE) PRODUCT_URL [] = Returned i
    /\ images i = take 6 (raw_list "image_candidates" (raw i))
    /\ videos i = take 3 (raw_list "video_candidates" (raw i)).
Proof.
  destruct (parse_static ascii_lower (static_only_env COMPLETE_PAGE) PRODUCT_URL [])
    as [i|msg] eqn:E; [|vm_compute in E; discriminate E].
  exists i. split; [reflexivity|].
  destruct (parse_static_lists ascii_lower (static_only_env COMPLETE_PAGE) PRODUCT_URL [] i E) as (H1 & H2 & _).
  by split.
Defined.


(** X18 on the browser run with two video addresses. *)
Lemma parse_dynamic_lists_witness :
  exists i,
    parse_dynamic_with_playwright ascii_lower dynamic_env PRODUCT_URL = Returned i
    /\ images i = take 6 (raw_list "image_candidates" (raw i))
    /\ videos i = take 3 (raw_list "video_candidates" (raw i)).
Proof.
  destruct (parse_dynamic_with_playwright ascii_lower dynamic_env PRODUCT_URL)
    as [i|msg] eqn:E; [|vm_compute in E; discriminate E].
  exists i. split; [reflexivity|].
  destruct (parse_dynamic_lists ascii_lower dynamic_env PRODUCT_URL i E) as (H1 & H2 & _).
  by split.
Defined.

(** X20 on the page without video, with the browser run. *)
Lemma parse_product_info_caps_witness :
  exists info,
    parse_product_info ascii_lower dynamic_env PRODUCT_URL [] = Returned info
    /\ capped_unique 6 (images info) /\ capped_unique 3 (videos info).
Proof.
  destruct (parse_product_info ascii_lower dynamic_env PRODUCT_URL []) as [info|msg] eqn:E;
    [|vm_compute in E; discriminate E].
  exists info. split; [reflexivity|].
  apply (parse_product_info_caps ascii_lower dynamic_env PRODUCT_URL [] info E).
Defined.

(** X21 on a share URL: the result of the static-only path, obtained
    under the canonical URL or under the share URL, has the share URL. *)
Lemma parse_product_info_source_url_witness :
  exists info,
    parse_product_info ascii_lower (static_only_env COMPLETE_PAGE) SHARE_URL_9 []
    = Returned info
    /\ source_url info = SHARE_URL_9.
Proof.
  destruct (parse_product_info ascii_lower (static_only_env COMPLETE_PAGE) SHARE_URL_9 [])
    as [info|msg] eqn:E; [|vm_compute in E; discriminate E].
  exists info. split; [reflexivity|].
  apply (parse_product_info_source_url ascii_lower (static_only_env COMPLETE_PAGE)
           SHARE_URL_9 [] info E).
Defined.

(** ** The dynamic stage, continued *)

Section DynamicFacts.

Variable lower : str -> str.
Variable env : Env.

Lemma queue_candidates_spec candidate_urls : forall queued,
  NoDup queued ->
  exists extra,
    queue_candidates lower queued candidate_urls = queued ++ extra
    /\ NoDup (queued ++ extra)
    /\ Forall (fun u => is_blocked_jump_url lower u = false /\ u ∈ candidate_urls) extra.
Proof.
  unfold queue_candidates.
  induction candidate_urls as [|u urls IH]; intros queued Hnd; cbn [fold_left].
  - exists []. rewrite app_nil_r. repeat split; [done|constructor].
  - destruct (decide (u ∈ queued)) as [Hin|Hin].
    + rewrite (bool_decide_eq_true_2 _ Hin). cbn [negb andb].
      destruct (IH queued Hnd) as (extra & Heq & Hn & Hf).
      exists extra. repeat split; [done|done|].
      eapply Forall_impl; [exact Hf|]. intros x [? ?]. split; [done|by right].
    + rewrite (bool_decide_eq_false_2 _ Hin). cbn [negb andb].
      destruct (is_blocked_jump_url lower u) eqn:Eb; cbn [negb].
      * destruct (IH queued Hnd) as (extra & Heq & Hn & Hf).
        exists extra. repeat split; [done|done|].
        eapply Forall_impl; [exact Hf|]. intros x [? ?]. split; [done|by right].
      * destruct (IH (queued ++ [u])) as (extra & Heq & Hn & Hf).
        { apply NoDup_app. split; [done|]. split; [|apply NoDup_singleton].
          intros x Hx Hx'. apply list_elem_of_singleton in Hx'. by subst x. }
        exists (u :: extra). rewrite <- app_assoc in Heq, Hn. cbn [app] in Heq, Hn.
        repeat split; [done|done|]. constructor; [split; [done|by left]|].
        eapply Forall_impl; [exact Hf|]. intros x [? ?]. split; [done|by right].
Qed.

(** X22. The URLs of the dynamic attempts are never empty and never
    repeat a URL; the first is the final URL of the seed (the source URL
    when that one is empty or blocked), and every URL after the first is
    a candidate URL that is not a blocked jump. *)
Theorem dynamic_attempt_urls_shape (source_url : str) (info : ProductInfo) :
  exists first rest,
    dynamic_attempt_urls lower source_url info = first :: rest
    /\ NoDup (first :: rest)
    /\ (first = source_url \/ (first = final_url info /\ is_blocked_jump_url lower first = false))
    /\ Forall (fun u => is_blocked_jump_url lower u = false
                        /\ u ∈ candidate_urls source_url) rest.
Proof.
  unfold dynamic_attempt_urls.
  set (first_try_url := match final_url info with [] => source_url | _ => final_url info end).
  destruct (is_blocked_jump_url lower first_try_url) eqn:Eb; cbn [negb].
  - destruct (queue_candidates_spec (candidate_urls source_url) [source_url])
      as (extra & -> & Hn & Hf); [apply NoDup_singleton|].
    exists source_url, extra. repeat split; [done|by left|done].
  - destruct (queue_candidates_spec (candidate_urls source_url) [first_try_url])
      as (extra & -> & Hn & Hf); [apply NoDup_singleton|].
    exists first_try_url, extra. repeat split; [done| |done].
    unfold first_try_url in *. destruct (final_url info); [by left|by right].
Qed.

Lemma dynamic_attempts_logs urls : forall idx info logs,
  length (snd (dynamic_attempts lower env idx urls info logs)) <= length logs + length urls
  /\ (length (snd (dynamic_attempts lower env idx urls info logs)) < length logs + length urls ->
      videos (fst (dynamic_attempts lower env idx urls info logs)) <> []).
Proof.
  induction urls as [|u urls IH]; intros idx info logs; cbn [dynamic_attempts].
  - cbn [fst snd length]. split; lia.
  - destruct (parse_dynamic_with_playwright lower env u) as [dynamic_info|exc].
    + set (info1 := merge_info info dynamic_info _).
      match goal with |- context [with_raw info1 ?r] => set (info2 := with_raw info1 r) end.
      destruct (videos info2) as [|v vs] eqn:Ev.
      * destruct (IH (S idx) info2 (logs ++ [u ++ lit " -> ok"])) as [H1 H2].
        rewrite length_app in H1, H2. cbn [length] in *. split; [lia|].
        intros H. apply H2. lia.
      * cbn [fst snd]. rewrite length_app. cbn [length]. split; [lia|].
        intros _. by rewrite Ev.
    + destruct (IH (S idx) info (logs ++ [u ++ lit " -> failed: " ++ exc])) as [H1 H2].
      rewrite length_app in H1, H2. cbn [length] in *. split; [lia|].
      intros H. apply H2. lia.
Qed.

(** X23. The dynamic loop writes one log line for each attempt, and it
    leaves URLs untried only when the running result has a video: when
    there are fewer log lines than URLs, the video list of the result is
    not empty. *)
Theorem dynamic_attempts_stop (urls : list str) (info : ProductInfo) :
  length (snd (dynamic_attempts lower env 0 urls info [])) <= length urls
  /\ (length (snd (dynamic_attempts lower env 0 urls info [])) < length urls ->
      videos (fst (dynamic_attempts lower env 0 urls info [])) <> []).
Proof. apply (dynamic_attempts_logs urls 0 info []). Qed.

End DynamicFacts.

(** X23 on three URLs of which the first fails and the second gives a
    video: two log lines, the third URL is not tried. *)
Lemma dynamic_attempts_stop_witness :
  length (snd (dynamic_attempts ascii_lower flaky_env 0
                 [SHARE_URL_9; PRODUCT_URL; SHARE_URL_5] blank_info [])) < 3
  /\ videos (fst (dynamic_attempts ascii_lower flaky_env 0
                    [SHARE_URL_9; PRODUCT_URL; SHARE_URL_5] blank_info [])) <> [].
Proof.
  assert (H : length (snd (dynamic_attempts ascii_lower flaky_env 0
                             [SHARE_URL_9; PRODUCT_URL; SHARE_URL_5] blank_info [])) < 3)
    by (vm_compute; lia).
  split; [exact H|].
  apply (dynamic_attempts_stop ascii_lower flaky_env
           [SHARE_URL_9; PRODUCT_URL; SHARE_URL_5] blank_info). exact H.
Defined.

(** *** When every dynamic attempt raises *)

Lemma attempt_urls_nonempty (lower : str -> str) (source_url canonical_url : str)
  (info : ProductInfo) :
  exists first rest,
    Exn.dynamic_attempt_urls lower source_url canonical_url info = first :: rest.
Proof.
  unfold Exn.dynamic_attempt_urls.
  match goal with |- context [queue_candidates lower ?q ?c] =>
    destruct (queue_candidates_spec lower c q) as (extra & -> & _)
  end.
  - destruct (negb _); apply NoDup_singleton.
  - destruct (negb _); by eexists _, _.
Qed.

(** X24. A failure of every dynamic attempt degrades the result and
    does not abort the call. When every call of
    [parse_dynamic_with_playwright] raises and the two calls of the
    final filter return, [parse_product_info] returns the title, the
    final URL and the images of the static seed, with the filtered
    videos and video candidates of the seed; the method stays [static],
    each attempted URL has its log line, and [fallback] records the
    failure with those lines. *)
Theorem dynamic_failure_keeps_seed (lib : Exn.UrlLib) (lower : str -> str) (env : Env)
  (dynamic : str -> outcome ProductInfo) (src canonical_url cookie_text : str)
  (seed : ProductInfo) (filtered candidates : list str) :
  Exn.canonicalize_pdd_goods_url lib src = Returned canonical_url ->
  Exn.static_seed lib lower env src canonical_url cookie_text = Returned seed ->
  need_dynamic seed = true ->
  (forall u, exists exc, dynamic u = Raised exc) ->
  Exn.filter_valid_video_urls lib lower (videos seed) = Returned filtered ->
  Exn.filter_valid_video_urls lib lower (raw_list "video_candidates" (raw seed))
  = Returned candidates ->
  exists info logs,
    Exn.parse_product_info lib lower env dynamic src cookie_text = Returned info
    /\ title info = title seed
    /\ final_url info = final_url seed
    /\ images info = images seed
    /\ videos info = take 3 filtered
    /\ raw info !! "video_candidates"%string = Some (RList (take 12 candidates))
    /\ raw info !! "method"%string = Some (RStr (lit "static"))
    /\ raw info !! "dynamic_attempts"%string = Some (RList logs)
    /\ length logs = length (Exn.dynamic_attempt_urls lower src canonical_url seed)
    /\ raw info !! "fallback"%string
       = Some (RStr (lit "playwright_failed: " ++ join (lit " | ") logs)).
Proof.
  intros Hc Hseed Hneed Hall Hv Hcs. unfold Exn.parse_product_info. rewrite Hc.
  change (Returned canonical_url ≫= ?f) with (f canonical_url). cbv beta. rewrite Hseed.
  change (Returned seed ≫= ?f) with (f seed). cbv beta. rewrite Hneed. cbn [negb].
  destruct (seed_keys _ _ _ _ _ _ _ Hseed) as (_ & Hfb & Hm).
  unfold Exn.dynamic_stage.
  destruct (attempts_all_fail dynamic
              (Exn.dynamic_attempt_urls lower src canonical_url seed) 0 seed [] Hall)
    as (lines & -> & Hlen).
  cbn [app].
  destruct (attempt_urls_nonempty lower src canonical_url seed) as (first & rest & Hurls).
  rewrite Hurls in Hlen. destruct lines as [|l lines]; [done|].
  rewrite Hv. change (Returned filtered ≫= ?f) with (f filtered). cbv beta.
  rewrite (lookup_insert_ne (raw seed) "dynamic_attempts"%string "fallback"%string) by done.
  rewrite Hfb.
  replace (raw_list "video_candidates" _) with (raw_list "video_candidates" (raw seed))
    by (unfold raw_list; by rewrite !lookup_insert_ne).
  rewrite Hcs. change (Returned candidates ≫= ?f) with (f candidates). cbv beta.
  eexists _, (l :: lines). split; [reflexivity|].
  unfold with_raw, with_videos. cbn [title final_url images videos raw].
  repeat split.
  - by rewrite lookup_insert_eq.
  - by rewrite !lookup_insert_ne.
  - rewrite !lookup_insert_ne by done. by rewrite lookup_insert_eq.
  - by rewrite Hurls.
  - rewrite lookup_insert_ne by done. by rewrite lookup_insert_eq.
Qed.

(** X24 on the page without video when no browser is available. *)
Lemma dynamic_failure_keeps_seed_witness :
  exists info logs,
    Exn.parse_product_info PLAIN_LIB ascii_lower (static_only_env NO_VIDEO_PAGE)
      (parse_dynamic_with_playwright ascii_lower (static_only_env NO_VIDEO_PAGE))
      PRODUCT_URL []
    = Returned info
    /\ title info = lit "Test Product"
    /\ images info = [lit "https://x/a.jpg"]
    /\ videos info = []
    /\ raw info !! "fallback"%string
       = Some (RStr (lit "playwright_failed: " ++ join (lit " | ") logs)).
Proof.
  destruct (Exn.static_seed PLAIN_LIB ascii_lower (static_only_env NO_VIDEO_PAGE)
              PRODUCT_URL PRODUCT_URL [])
    as [seed|msg] eqn:Es; [|vm_compute in Es; discriminate Es].
  destruct (dynamic_failure_keeps_seed PLAIN_LIB ascii_lower (static_only_env NO_VIDEO_PAGE)
              (parse_dynamic_with_playwright ascii_lower (static_only_env NO_VIDEO_PAGE))
              PRODUCT_URL PRODUCT_URL [] seed [] [] ltac:(vm_compute; reflexivity) Es)
    as (info & logs & Hp & Ht & _ & Hi & Hv & _ & _ & _ & _ & Hf).
  - vm_compute in Es. injection Es as <-. vm_compute. reflexivity.
  - intros u. by exists (lit "no browser").
  - vm_compute in Es. injection Es as <-. vm_compute. reflexivity.
  - vm_compute in Es. injection Es as <-. vm_compute. reflexivity.
  - exists info, logs. split; [exact Hp|].
    vm_compute in Es. injection Es as <-.
    split; [rewrite Ht; vm_compute; reflexivity|].
    split; [rewrite Hi; vm_compute; reflexivity|]. split; [exact Hv|exact Hf].
Defined.

(** ** The listeners, continued *)

Section CaptureFacts.

Variable lower : str -> str.

Lemma extends_refl (a : Captured) : extends a a.
Proof. by repeat split. Qed.

Lemma extends_trans (a b c : Captured) : extends a b -> extends b c -> extends a c.
Proof.
  intros (H1 & H2 & H3 & H4 & H5) (K1 & K2 & K3 & K4 & K5).
  repeat split; by etrans.
Qed.

Lemma on_request_extends (st : Captured) (u : str) : extends st (on_request st u).
Proof.
  unfold on_request. destruct (startswith (lit "http") u); [|apply extends_refl].
  repeat split; cbn; try done. by apply prefix_app_r.
Qed.

Lemma on_response_extends (st : Captured) (r : Response) :
  extends st (fst (on_response lower st r)).
Proof.
  unfold on_response.
  set (st1 := if startswith (lit "http") (res_url r) then _ else st).
  assert (H1 : extends st st1).
  { unfold st1. destruct (startswith (lit "http") (res_url r)); [|apply extends_refl].
    repeat split; cbn; try done. by apply prefix_app_r. }
  clearbody st1. eapply extends_trans; [exact H1|].
  destruct (negb _ && negb _); [apply extends_refl|].
  destruct (80 <=? length (json_urls st1)); [apply extends_refl|].
  destruct (res_text r) as [body|]; [|apply extends_refl].
  destruct (negb (contains (lit "http") body)); [apply extends_refl|].
  destruct (negb (any_in _ (lower body))); [apply extends_refl|].
  destruct (res_json r) as [payload|].
  - destruct (extract_media_from_json_obj lower payload []) as [ei ev].
    repeat split; cbn; try done; by apply prefix_app_r.
  - repeat split; cbn; try done; by apply prefix_app_r.
Qed.

Lemma on_event_extends (st : Captured) (ev : NetEvent) : extends st (on_event lower st ev).
Proof. destruct ev; [apply on_request_extends|apply on_response_extends]. Qed.

(** X25. The listeners only append: over any sequence of requests and
    responses, each of the five captured lists keeps what it held, in
    the same order, at its front. *)
Theorem listeners_append_only (events : list NetEvent) (st : Captured) :
  extends st (fold_left (on_event lower) events st).
Proof.
  revert st. induction events as [|ev events IH]; intros st; cbn [fold_left].
  - apply extends_refl.
  - eapply extends_trans; [apply on_event_extends|apply IH].
Qed.

Lemma on_event_http_only (st : Captured) (ev : NetEvent) :
  http_only st -> http_only (on_event lower st ev).
Proof.
  intros [Hn Hr]. destruct ev as [u|r]; cbn [on_event].
  - unfold on_request. destruct (startswith (lit "http") u) eqn:E; [|by split].
    split; cbn; [|done]. apply Forall_app. split; [done|]. by repeat constructor.
  - unfold on_response.
    set (st1 := if startswith (lit "http") (res_url r) then _ else st).
    assert (H1 : http_only st1).
    { unfold st1. destruct (startswith (lit "http") (res_url r)) eqn:E; [|by split].
      split; cbn; [done|]. apply Forall_app. split; [done|]. by repeat constructor. }
    clearbody st1.
    destruct (negb _ && negb _); [done|].
    destruct (80 <=? length (json_urls st1)); [done|].
    destruct (res_text r) as [body|]; [|done].
    destruct (negb (contains (lit "http") body)); [done|].
    destruct (negb (any_in _ (lower body))); [done|].
    destruct (res_json r) as [payload|]; [|exact H1].
    destruct (extract_media_from_json_obj lower payload []) as [ei ev]. exact H1.
Qed.

(** X26. Whatever the page requests and receives, the listeners record
    under [network_urls] and [response_urls] only URLs that start with
    [http]: addresses such as [data:] and [blob:] are left out. *)
Theorem listeners_http_only (events : list NetEvent) :
  http_only (fold_left (on_event lower) events no_capture).
Proof.
  assert (H : forall st, http_only st -> http_only (fold_left (on_event lower) events st)).
  { induction events as [|ev events IH]; intros st Hst; cbn [fold_left]; [done|].
    apply IH. by apply on_event_http_only. }
  apply H. split; constructor.
Qed.

End CaptureFacts.

(** ** Cookie header *)

Lemma split_nonempty (c : N) (s : str) : split c s <> [].
Proof.
  induction s as [|d s IH]; cbn [split]; [done|].
  destruct (d =? c)%N; [done|]. by destruct (split c s).
Qed.

Lemma split_app_sep (c : N) (a b : str) :
  split c (a ++ c :: b) = split c a ++ split c b.
Proof.
  induction a as [|d a IH]; cbn [app split].
  - by rewrite N.eqb_refl.
  - destruct (d =? c)%N; [by rewrite IH|]. rewrite IH.
    pose proof (split_nonempty c a). by destruct (split c a).
Qed.

Lemma lstrip_by_nil_all (p : N -> bool) (s : str) :
  lstrip_by p s = [] -> Forall (fun c => p c = true) s.
Proof.
  induction s as [|c s IH]; cbn [lstrip_by]; [constructor|].
  destruct (p c) eqn:E; [|done]. intros H. constructor; auto.
Qed.

Lemma strip_by_nil_all (p : N -> bool) (s : str) :
  strip_by p s = [] -> Forall (fun c => p c = true) s.
Proof.
  unfold strip_by. intros H. pose proof (lstrip_by_head p s) as Hh.
  destruct (lstrip_by p s) as [|c t] eqn:E; [by apply lstrip_by_nil_all|].
  destruct (rstrip_by_head p c t Hh) as [r Hr]. congruence.
Qed.

Lemma blank_absent (c : N) (s : str) :
  isspace c = false -> strip s = [] -> Forall (fun d => d <> c) s.
Proof.
  intros Hc Hs. apply strip_by_nil_all in Hs.
  eapply Forall_impl; [exact Hs|]. intros d Hd ->. congruence.
Qed.

(** The guard of [parse_cookie_header] for a blank text only saves the
    loop: the loop finds no pair in such a text. *)
Lemma parse_cookie_header_fold (cookie_text : str) :
  parse_cookie_header cookie_text = fold_left cookie_step (split 59 cookie_text) ∅.
Proof.
  unfold parse_cookie_header. destruct (strip cookie_text) as [|c s] eqn:E; [|done].
  rewrite split_absent by (apply blank_absent; [reflexivity|done]).
  cbn [fold_left]. unfold cookie_step.
  by rewrite partition_absent by (apply blank_absent; [reflexivity|done]).
Qed.

(** X27. Appending a pair to a cookie header is an insertion: the pair
    [name=value] after a semicolon adds the trimmed name with the
    trimmed value to the cookies of the text before it, and replaces the
    value of a name that is already there. *)
Theorem parse_cookie_header_append (cookie_text name value : str) :
  Forall (fun d => d <> 59%N) name -> Forall (fun d => d <> 61%N) name ->
  Forall (fun d => d <> 59%N) value ->
  strip name <> [] ->
  parse_cookie_header (cookie_text ++ [59%N] ++ name ++ [61%N] ++ value)
  = <[strip name := strip value]> (parse_cookie_header cookie_text).
Proof.
  intros Hn1 Hn2 Hv Hne. rewrite !parse_cookie_header_fold.
  cbn [app]. rewrite split_app_sep, fold_left_app.
  rewrite split_absent.
  2: { apply Forall_app. split; [done|]. constructor; [done|done]. }
  cbn [fold_left]. unfold cookie_step at 1.
  rewrite partition_app_absent by done. cbn [partition].
  rewrite N.eqb_refl. cbn [fst snd]. rewrite app_nil_r.
  by destruct (strip name).
Qed.

(** X27 on a header with one pair. *)
Lemma parse_cookie_header_append_witness :
  parse_cookie_header (lit "api_uid=abc" ++ [59%N] ++ lit " PDDAccessToken" ++ [61%N] ++ lit "x=y ")
  = <[strip (lit " PDDAccessToken") := strip (lit "x=y ")]>
      (parse_cookie_header (lit "api_uid=abc")).
Proof.
  apply (parse_cookie_header_append (lit "api_uid=abc") (lit " PDDAccessToken") (lit "x=y "));
    try (apply absent_dec; vm_compute; reflexivity).
  vm_compute. discriminate.
Defined.

(** X28. A part without an equals sign, or with a blank name, is
    ignored: appending it to a cookie header changes nothing. *)
Theorem parse_cookie_header_ignored (cookie_text part : str) :
  Forall (fun d => d <> 59%N) part ->
  Forall (fun d => d <> 61%N) part \/ strip (fst (partition 61 part)) = [] ->
  parse_cookie_header (cookie_text ++ [59%N] ++ part) = parse_cookie_header cookie_text.
Proof.
  intros Hp Hcase. rewrite !parse_cookie_header_fold.
  cbn [app]. rewrite split_app_sep, fold_left_app, split_absent by done.
  cbn [fold_left]. unfold cookie_step at 1. destruct Hcase as [He|Hk].
  - by rewrite partition_absent.
  - destruct (partition 61 part) as [k [v|]]; [|done]. cbn [fst] in Hk. by rewrite Hk.
Qed.

(** X28 on a flag without value and on a pair without name. *)
Lemma parse_cookie_header_ignored_witness :
  parse_cookie_header (lit "api_uid=abc" ++ [59%N] ++ lit " Secure")
  = parse_cookie_header (lit "api_uid=abc")
  /\ parse_cookie_header (lit "api_uid=abc" ++ [59%N] ++ lit " =v")
     = parse_cookie_header (lit "api_uid=abc").
Proof.
  split.
  - apply (parse_cookie_header_ignored (lit "api_uid=abc") (lit " Secure"));
      [apply absent_dec; vm_compute; reflexivity|].
    left. apply absent_dec. vm_compute. reflexivity.
  - apply (parse_cookie_header_ignored (lit "api_uid=abc") (lit " =v"));
      [apply absent_dec; vm_compute; reflexivity|].
    right. vm_compute. reflexivity.
Defined.

Lemma split_parts_absent (c : N) (s : str) :
  Forall (fun w => Forall (fun d => d <> c) w) (split c s).
Proof.
  induction s as [|d s IH]; cbn [split]; [by repeat constructor|].
  destruct (d =? c)%N eqn:E; [by constructor|]. apply N.eqb_neq in E.
  destruct (split c s) as [|w ws]; [by repeat constructor|].
  apply Forall_cons in IH as [Hw Hws]. constructor; [by constructor|done].
Qed.

Lemma partition_parts (c : N) (s a b : str) :
  partition c s = (a, Some b) -> s = a ++ c :: b /\ Forall (fun d => d <> c) a.
Proof.
  revert a. induction s as [|d s IH]; intros a; cbn [partition]; [done|].
  destruct (d =? c)%N eqn:E.
  - apply N.eqb_eq in E. subst d. intros [= <- <-]. by split.
  - apply N.eqb_neq in E. destruct (partition c s) as [x [y|]]; [|done].
    intros [= <- <-]. destruct (IH x eq_refl) as [-> Hx]. split; [done|by constructor].
Qed.

Lemma strip_Forall (P : N -> Prop) (s : str) : Forall P s -> Forall P (strip s).
Proof.
  intros H. destruct (strip_by_infix isspace s) as (a & b & E).
  rewrite E in H. apply Forall_app in H as [_ H]. by apply Forall_app in H as [H _].
Qed.

Lemma cookie_step_wf (cookies : gmap str str) (part : str) :
  Forall (fun d => d <> 59%N) part ->
  map_Forall cookie_wf cookies -> map_Forall cookie_wf (cookie_step cookies part).
Proof.
  intros Hp Hm. unfold cookie_step.
  destruct (partition 61 part) as [k [v|]] eqn:E; [|done].
  destruct (partition_parts _ _ _ _ E) as [-> Hk].
  apply Forall_app in Hp as [Hk59 Hv59]. apply Forall_cons in Hv59 as [_ Hv59].
  destruct (strip k) as [|c r] eqn:Ek; [done|].
  apply map_Forall_insert_2; [|done]. rewrite <- Ek.
  unfold cookie_wf. repeat split.
  - by rewrite Ek.
  - apply strip_fixed.
  - apply strip_fixed.
  - by apply strip_Forall.
  - by apply strip_Forall.
  - by apply strip_Forall.
Qed.

(** X29. Every cookie that [parse_cookie_header] returns has a name
    that is not empty, a name and a value without surrounding
    whitespace, no semicolon in either and no equals sign in the name. *)
Theorem parse_cookie_header_wf (cookie_text : str) :
  map_Forall cookie_wf (parse_cookie_header cookie_text).
Proof.
  rewrite parse_cookie_header_fold.
  assert (H : forall parts m,
            Forall (fun w => Forall (fun d => d <> 59%N) w) parts ->
            map_Forall cookie_wf m -> map_Forall cookie_wf (fold_left cookie_step parts m)).
  { induction parts as [|p parts IH]; intros m Hp Hm; cbn [fold_left]; [done|].
    apply Forall_cons in Hp as [Hp Hps]. apply IH; [done|]. by apply cookie_step_wf. }
  apply H; [apply split_parts_absent|apply map_Forall_empty].
Qed.

(** ** Markup extraction *)

Section MarkupFacts.

Variable lower : str -> str.

Lemma uniq_exact_fold_elem values : forall out seen x,
  x ∈ fst (fold_left uniq_exact_step values (out, seen)) -> x ∈ out \/ x ∈ values.
Proof.
  induction values as [|v values IH]; intros out seen x; cbn [fold_left]; [by left|].
  unfold uniq_exact_step at 2. case_bool_decide.
  - intros H'. destruct (IH _ _ _ H'); [by left|right; by right].
  - intros H'. destruct (IH _ _ _ H') as [Hx|Hx]; [|right; by right].
    apply elem_of_app in Hx as [Hx|Hx]; [by left|].
    apply list_elem_of_singleton in Hx. subst. right. by left.
Qed.

Lemma meta_values_trimmed (sp : Soup) (keys : list str) :
  Forall (fun v => v <> [] /\ strip v = v) (meta_values sp keys).
Proof.
  apply Forall_forall. intros x Hx. unfold meta_values, uniq_exact in Hx.
  apply uniq_exact_fold_elem in Hx as [Hx|Hx]; [by apply elem_of_nil in Hx|].
  apply list_elem_of_In, in_flat_map in Hx as (key & _ & Hx).
  assert (Hc : forall attr, In x (meta_contents attr key (metas sp)) ->
                            x <> [] /\ strip x = x).
  { intros attr Hin. unfold meta_contents in Hin.
    apply in_flat_map in Hin as (tag & _ & Hin).
    destruct (bool_decide (attr tag = Some key)); [|done].
    destruct (strip (default [] (meta_content tag))) as [|c r] eqn:E; [done|].
    destruct Hin as [<-|[]]. split; [done|]. rewrite <- E. apply strip_fixed. }
  apply in_app_or in Hx as [Hx|Hx]; eapply Hc; exact Hx.
Qed.

(** X30. [extract_from_html] returns a title without surrounding
    whitespace, and image and video lists that have no two entries with
    the same path. *)
Theorem extract_from_html_result (html : Html) :
  strip (fst (fst (extract_from_html lower html))) = fst (fst (extract_from_html lower html))
  /\ NoDup (path_key <$> snd (fst (extract_from_html lower html)))
  /\ NoDup (path_key <$> snd (extract_from_html lower html)).
Proof.
  unfold extract_from_html. cbv zeta.
  destruct (classify_media_urls lower _) as [ci cv]. cbn [fst snd].
  split; [|split; apply uniq_by_path_NoDup].
  pose proof (meta_values_trimmed (soup html) [lit "og:title"; lit "twitter:title"]) as Hm.
  destruct (meta_values (soup html) [lit "og:title"; lit "twitter:title"]) as [|t ts].
  - destruct (title_text (soup html)) as [[|c t]|]; [done|apply strip_fixed|done].
  - apply Forall_cons in Hm as [[_ Ht] _]. exact Ht.
Qed.

End MarkupFacts.

(** ** Concrete inputs *)

(** End-to-end scenario 1: the URL is its own canonical form, the static
    seed has the title and the image of the page and no video, and the
    dynamic stage is needed. *)
Example scenario_1 :
  canonicalize_pdd_goods_url PRODUCT_URL = PRODUCT_URL
  /\ exists seed,
       static_seed ascii_lower (static_only_env NO_VIDEO_PAGE) PRODUCT_URL [] = Returned seed
       /\ title seed = lit "Test Product"
       /\ images seed = [lit "https://x/a.jpg"]
       /\ videos seed = []
       /\ need_dynamic seed = true.
Proof. split; [vm_compute; reflexivity|]. eexists. repeat split; vm_compute; reflexivity. Qed.

(** The two URLs of the false-positive test of the classifier. *)
Example classifier_false_positive :
  classify_media_urls ascii_lower [lit "https://x/svideo_index.js"] = ([], [])
  /\ classify_media_urls ascii_lower [lit "https://x/assets/video-player/clip.mp4"]
     = ([], [lit "https://x/assets/video-player/clip.mp4"]).
Proof. split; vm_compute; reflexivity. Qed.

(** C1 as stated fails. A page with a title, an image and the video
    element [https://cdn.example.com/clip] is returned by the
    static-only path with that video in [videos] and in
    [video_candidates], although the final filter rejects it. *)
Lemma static_only_return_not_filtered :
  exists info,
    parse_product_info ascii_lower (static_only_env COMPLETE_PAGE) PRODUCT_URL []
    = Returned info
    /\ videos info = [lit "https://cdn.example.com/clip"]
    /\ raw_list "video_candidates" (raw info) = [lit "https://cdn.example.com/clip"]
    /\ valid_video_url ascii_lower (lit "https://cdn.example.com/clip") = false
    /\ filter_valid_video_urls ascii_lower (videos info) = [].
Proof. eexists. repeat split; vm_compute; reflexivity. Qed.

(** C1 on a page without video: the browser run adds two video
    addresses and the final filter keeps the valid one. *)
Lemma final_filter_after_dynamic_stage_witness :
  match parse_product_info ascii_lower dynamic_env PRODUCT_URL [] with
  | Returned info =>
    Forall (fun u => valid_video_url ascii_lower u = true) (videos info)
    /\ Forall (fun u => valid_video_url ascii_lower u = true)
              (raw_list "video_candidates" (raw info))
  | Raised _ => False
  end.
Proof.
  destruct (static_seed ascii_lower dynamic_env PRODUCT_URL []) as [seed|msg] eqn:Es;
    [|vm_compute in Es; discriminate Es].
  destruct (parse_product_info ascii_lower dynamic_env PRODUCT_URL []) as [info|msg] eqn:Ep.
  - apply (final_filter_after_dynamic_stage ascii_lower dynamic_env PRODUCT_URL [] seed info
             Es Ep).
    vm_compute in Es. injection Es as <-. vm_compute. reflexivity.
  - vm_compute in Ep. discriminate Ep.
Defined.

(** C2. On a page whose [og:image] is a relative address,
    [parse_static] returns that address among the images: it does not
    start with [http] and has no scheme. *)
Theorem parse_static_relative_image :
  exists info,
    parse_static ascii_lower (static_only_env RELATIVE_IMAGE_PAGE) PRODUCT_URL []
    = Returned info
    /\ images info = [lit "/static/a.jpg"]
    /\ startswith (lit "http") (lit "/static/a.jpg") = false
    /\ scheme (urlparse (lit "/static/a.jpg")) = [].
Proof. eexists. repeat split; vm_compute; reflexivity. Qed.

(** C3 as stated fails. Merging a result whose title is the placeholder
    into a base without title changes the title, to the placeholder. *)
Lemma merge_info_writes_placeholder :
  title blank_info = []
  /\ title (merge_info blank_info PLACEHOLDER_INFO (lit "dynamic_0:u")) <> title blank_info
  /\ title (merge_info blank_info PLACEHOLDER_INFO (lit "dynamic_0:u")) = PLACEHOLDER_TITLE.
Proof.
  split; [reflexivity|]. split; [vm_compute; discriminate|vm_compute; reflexivity].
Qed.

(** C3 on a base with the placeholder and an incoming real title. *)
Lemma merge_info_title_change_witness :
  title (merge_info PLACEHOLDER_INFO TITLED_INFO (lit "dynamic_0:u")) = title TITLED_INFO
  /\ title TITLED_INFO <> []
  /\ (title PLACEHOLDER_INFO = [] \/ title PLACEHOLDER_INFO = PLACEHOLDER_TITLE)
  /\ (title PLACEHOLDER_INFO <> [] ->
      title (merge_info PLACEHOLDER_INFO TITLED_INFO (lit "dynamic_0:u"))
      <> PLACEHOLDER_TITLE).
Proof.
  apply (merge_info_title_change PLACEHOLDER_INFO TITLED_INFO (lit "dynamic_0:u")).
  vm_compute. discriminate.
Defined.

(** C8 as stated fails. Of 81 XHR responses whose bodies have [http]
    and a keyword but no URL, all 81 bodies are read. *)
Lemma listener_reads_more_than_80 :
  bodies_read ascii_lower no_capture (repeat KEYWORD_RESPONSE 81) = 81.
Proof. vm_compute. reflexivity. Qed.

(** C8 on those 81 responses: all are read, none adds a URL. *)
Lemma listener_bound_witness :
  bodies_with_urls ascii_lower no_capture (repeat KEYWORD_RESPONSE 81) <= 80
  /\ length (json_urls no_capture) < 80.
Proof.
  destruct (listener_bound ascii_lower (repeat KEYWORD_RESPONSE 81)) as [H1 H2].
  split; [exact H1|]. apply (H2 no_capture KEYWORD_RESPONSE). vm_compute. reflexivity.
Defined.

(** C10 on a merge with an empty incoming final URL. *)
Lemma merge_info_frame_witness :
  source_url (merge_info blank_info TITLED_INFO (lit "dynamic_0:u")) = source_url blank_info
  /\ final_url (merge_info blank_info TITLED_INFO (lit "dynamic_0:u")) = final_url blank_info
  /\ raw (merge_info blank_info TITLED_INFO (lit "dynamic_0:u")) !! "method"%string
     = raw blank_info !! "method"%string.
Proof.
  destruct (merge_info_frame blank_info TITLED_INFO (lit "dynamic_0:u")) as (H1 & H2 & H3).
  split; [exact H1|]. split; [apply H2; vm_compute; reflexivity|].
  apply H3. unfold merge_keys. intros Hin.
  repeat (apply elem_of_cons in Hin as [[=]|Hin]). inversion Hin.
Defined.
